(** * CanvasBoard: the drawing engine of src/components/CanvasBoard.tsx

    A shallow embedding of the mounted [CanvasBoard] component: the two
    canvases (main = committed surface, temp = scratch surface), their 2D
    contexts, the [isDrawing] flag, the history array with its step
    counter, the [tool] prop and the container rectangle.

    The browser's rendering primitives (alpha compositing, resampling in
    [drawImage], path stroking, PNG encoding) are not part of the
    repository: they are the operations of the class [Raster], constrained
    by the laws [RasterLaws].  Everything the component itself does with
    them is written out below, function by function.

    JavaScript numbers (coordinates, line widths, opacities, the aspect-fit
    arithmetic) are rationals; colours are parsed RGBA pixels; the
    container is laid out with a positive size in whole pixels.  The
    resize handler is given a second time on the width and height exactly
    as the browser reports them ([handleResizeAt]), where they may have a
    fractional part.

    The file ends with the two pure pieces of the image service of
    src/services/geminiService.ts: cleaning a data URL and reading the
    parts of a response. *)

From Stdlib Require Import String DecimalString List ZArith QArith Qround Bool Lia Lqa Arith.
Import ListNotations.

Set Implicit Arguments.
Open Scope Z_scope.

(** ** Pixels and bitmaps *)

Record Pixel := mkPixel { red : Z; green : Z; blue : Z; alpha : Z }.

(** ['#ffffff'], the background colour used throughout the component. *)
Definition white : Pixel := mkPixel 255 255 255 255.
(** Transparent black, the content of a fresh or cleared canvas. *)
Definition transparent : Pixel := mkPixel 0 0 0 0.

Definition pixel_eqb (p q : Pixel) : bool :=
  (red p =? red q) && (green p =? green q) && (blue p =? blue q)
  && (alpha p =? alpha q).

(** [ImageData] and canvas backing stores: [iheight] rows of [iwidth]
    pixels, top row first. *)
Record ImageData := mkImage
  { iwidth : nat; iheight : nat; data : list (list Pixel) }.

Definition Point : Type := (Q * Q)%type.

(** Destination rectangle of the five-argument [drawImage]. *)
Record Rect := mkRect { rx : Q; ry : Q; rw : Q; rh : Q }.

Inductive LineCap := CapButt | CapRound | CapSquare.
Inductive LineJoin := JoinMiter | JoinRound | JoinBevel.

(** The part of a 2D context that [save]/[restore] push and pop. *)
Record DrawState := mkDrawState
  { fillStyle : Pixel; strokeStyle : Pixel; lineWidth : Q;
    lineCap : LineCap; lineJoin : LineJoin; globalAlpha : Q }.

(** Current path: subpaths newest first, each with its newest point first. *)
Definition Path : Type := list (list Point).

Record Context2D := mkCtx
  { cur : DrawState; path : Path; saved : list DrawState }.

(** A canvas element together with its (unique) 2D context. *)
Record Canvas := mkCanvas { bitmap : ImageData; ctx : Context2D }.

(** ** Rendering primitives supplied by the browser *)

Class Raster := mkRaster
  { (** source-over compositing of a source pixel, weighted by the global
        alpha, onto a destination pixel *)
    blend : Q -> Pixel -> Pixel -> Pixel;
    (** what [drawImage(src, rx, ry, rw, rh)] contributes at the
        destination pixel in column [x], row [y] *)
    sample : ImageData -> Rect -> nat -> nat -> Pixel;
    (** what [stroke()] of the path in the given style contributes at the
        pixel in column [x], row [y] *)
    strokeAt : Path -> DrawState -> nat -> nat -> Pixel;
    (** [toDataURL('image/png')] *)
    encodePNG : ImageData -> string }.

(** The pixel square of column [x], row [y] does not meet the rectangle. *)
Definition outside (r : Rect) (x y : nat) : Prop :=
  (inject_Z (Z.of_nat x) + 1 <= rx r \/ rx r + rw r <= inject_Z (Z.of_nat x) \/
   inject_Z (Z.of_nat y) + 1 <= ry r \/ ry r + rh r <= inject_Z (Z.of_nat y))%Q.

Record RasterLaws (R : Raster) : Prop := mkRasterLaws
  { (** an opaque source at full alpha replaces the destination *)
    blend_opaque : forall s d, alpha s = 255 -> blend 1%Q s d = s;
    (** a transparent source leaves the destination alone *)
    blend_clear : forall a d, blend a transparent d = d;
    (** an opaque destination stays opaque *)
    blend_keeps_opaque : forall a s d, alpha d = 255 -> alpha (blend a s d) = 255;
    (** [drawImage] paints nothing outside its destination rectangle *)
    sample_outside : forall src r x y, outside r x y -> sample src r x y = transparent;
    (** [drawImage] of an image without pixels paints nothing *)
    sample_empty : forall src r x y,
      iwidth src = 0%nat \/ iheight src = 0%nat -> sample src r x y = transparent }.

(** ** Canvas API, as far as the component uses it *)

Section CanvasAPI.
Context {R : Raster}.

Definition defaultState : DrawState :=
  mkDrawState (mkPixel 0 0 0 255) (mkPixel 0 0 0 255) 1%Q CapButt JoinMiter 1%Q.

Definition defaultCtx : Context2D := mkCtx defaultState [] [].

Definition blankRows (w h : nat) : list (list Pixel) :=
  repeat (repeat transparent w) h.

Definition blankImage (w h : nat) : ImageData := mkImage w h (blankRows w h).

(** [document.createElement('canvas')] sized [w] by [h]; also what
    assigning [canvas.width]/[canvas.height] leaves behind: a transparent
    backing store and a context reset to its defaults. *)
Definition newCanvas (w h : nat) : Canvas := mkCanvas (blankImage w h) defaultCtx.

(** HTML's intrinsic size of a canvas without width/height attributes. *)
Definition defaultCanvas : Canvas := newCanvas 300 150.

Definition cwidth (c : Canvas) : nat := iwidth (bitmap c).
Definition cheight (c : Canvas) : nat := iheight (bitmap c).

Definition withRows (c : Canvas) (rs : list (list Pixel)) : Canvas :=
  mkCanvas (mkImage (cwidth c) (cheight c) rs) (ctx c).

Definition withState (c : Canvas) (s : DrawState) : Canvas :=
  mkCanvas (bitmap c) (mkCtx s (path (ctx c)) (saved (ctx c))).

Definition withPath (c : Canvas) (p : Path) : Canvas :=
  mkCanvas (bitmap c) (mkCtx (cur (ctx c)) p (saved (ctx c))).

Definition style (c : Canvas) : DrawState := cur (ctx c).

(** Property setters.  [globalAlpha] ignores values outside [0,1] and
    [lineWidth] ignores non-positive values, as the Canvas API does. *)
Definition set_fillStyle (v : Pixel) (c : Canvas) : Canvas :=
  withState c (mkDrawState v (strokeStyle (style c)) (lineWidth (style c))
                 (lineCap (style c)) (lineJoin (style c)) (globalAlpha (style c))).

Definition set_strokeStyle (v : Pixel) (c : Canvas) : Canvas :=
  withState c (mkDrawState (fillStyle (style c)) v (lineWidth (style c))
                 (lineCap (style c)) (lineJoin (style c)) (globalAlpha (style c))).

Definition set_lineWidth (v : Q) (c : Canvas) : Canvas :=
  if negb (Qle_bool v 0) then
    withState c (mkDrawState (fillStyle (style c)) (strokeStyle (style c)) v
                   (lineCap (style c)) (lineJoin (style c)) (globalAlpha (style c)))
  else c.

Definition set_lineCap (v : LineCap) (c : Canvas) : Canvas :=
  withState c (mkDrawState (fillStyle (style c)) (strokeStyle (style c)) (lineWidth (style c))
                 v (lineJoin (style c)) (globalAlpha (style c))).

Definition set_lineJoin (v : LineJoin) (c : Canvas) : Canvas :=
  withState c (mkDrawState (fillStyle (style c)) (strokeStyle (style c)) (lineWidth (style c))
                 (lineCap (style c)) v (globalAlpha (style c))).

Definition set_globalAlpha (v : Q) (c : Canvas) : Canvas :=
  if Qle_bool 0 v && Qle_bool v 1 then
    withState c (mkDrawState (fillStyle (style c)) (strokeStyle (style c)) (lineWidth (style c))
                   (lineCap (style c)) (lineJoin (style c)) v)
  else c.

Definition save (c : Canvas) : Canvas :=
  mkCanvas (bitmap c) (mkCtx (style c) (path (ctx c)) (style c :: saved (ctx c))).

Definition restore (c : Canvas) : Canvas :=
  match saved (ctx c) with
  | [] => c
  | s :: rest => mkCanvas (bitmap c) (mkCtx s (path (ctx c)) rest)
  end.

(** Indexed maps over rows and pixels. *)
Fixpoint imapFrom {A B : Type} (f : nat -> A -> B) (i : nat) (l : list A) : list B :=
  match l with
  | [] => []
  | a :: l' => f i a :: imapFrom f (S i) l'
  end.

Definition mapPixels (f : nat -> nat -> Pixel -> Pixel) (rs : list (list Pixel))
  : list (list Pixel) :=
  imapFrom (fun y row => imapFrom (fun x p => f x y p) 0%nat row) 0%nat rs.

(** Combine a source with a destination anchored at the same origin; the
    destination keeps its shape and whatever the source does not cover. *)
Fixpoint overlay {A : Type} (f : A -> A -> A) (src dst : list A) : list A :=
  match dst with
  | [] => []
  | d :: ds =>
      match src with
      | [] => dst
      | s :: ss => f s d :: overlay f ss ds
      end
  end.

(** [fillRect(0, 0, canvas.width, canvas.height)]: every call in the
    component covers the whole canvas. *)
Definition fillRect (c : Canvas) : Canvas :=
  withRows c (map (map (blend (globalAlpha (style c)) (fillStyle (style c)))) (data (bitmap c))).

(** [clearRect(0, 0, canvas.width, canvas.height)]. *)
Definition clearRect (c : Canvas) : Canvas :=
  withRows c (map (map (fun _ => transparent)) (data (bitmap c))).

(** [drawImage(src, 0, 0)]: unscaled, at the origin. *)
Definition drawImage (src : ImageData) (c : Canvas) : Canvas :=
  withRows c (overlay (overlay (blend (globalAlpha (style c)))) (data src) (data (bitmap c))).

(** [drawImage(src, rx, ry, rw, rh)]: resampled into the rectangle. *)
Definition drawImageScaled (src : ImageData) (r : Rect) (c : Canvas) : Canvas :=
  withRows c (mapPixels (fun x y d => blend (globalAlpha (style c)) (sample src r x y) d)
                (data (bitmap c))).

(** [putImageData(img, 0, 0)]: raw copy, no compositing. *)
Definition putImageData (img : ImageData) (c : Canvas) : Canvas :=
  withRows c (overlay (overlay (fun s _ => s)) (data img) (data (bitmap c))).

(** [getImageData(0, 0, canvas.width, canvas.height)]. *)
Definition getImageData (c : Canvas) : ImageData :=
  mkImage (cwidth c) (cheight c) (data (bitmap c)).

Definition beginPath (c : Canvas) : Canvas := withPath c [].

Definition moveTo (p : Point) (c : Canvas) : Canvas :=
  withPath c ([p] :: path (ctx c)).

Definition lineTo (p : Point) (c : Canvas) : Canvas :=
  match path (ctx c) with
  | [] => withPath c [[p]]
  | sub :: rest => withPath c ((p :: sub) :: rest)
  end.

(** [stroke()]: strokes the whole current path in the current style. *)
Definition stroke (c : Canvas) : Canvas :=
  withRows c (mapPixels (fun x y d =>
                 blend (globalAlpha (style c)) (strokeAt (path (ctx c)) (style c) x y) d)
                (data (bitmap c))).

(** [toDataURL('image/png')]. *)
Definition toDataURL (c : Canvas) : string := encodePNG (bitmap c).


(** ** The component *)

(** [DrawingTool] of types.ts; [color] is the parsed CSS colour. *)
Inductive Mode := brush | eraser.
Inductive Shape := round | square.

Record DrawingTool := mkTool
  { color : Pixel; width : Q; mode : Mode; shape : Shape; opacity : Q }.

Definition mode_eqb (a b : Mode) : bool :=
  match a, b with brush, brush | eraser, eraser => true | _, _ => false end.

Definition shape_eqb (a b : Shape) : bool :=
  match a, b with round, round | square, square => true | _, _ => false end.

(** [tCtx.lineCap = tool.shape] and
    [tCtx.lineJoin = tool.shape === 'round' ? 'round' : 'bevel']. *)
Definition capOf (s : Shape) : LineCap :=
  match s with round => CapRound | square => CapSquare end.
Definition joinOf (s : Shape) : LineJoin :=
  if shape_eqb s round then JoinRound else JoinBevel.

(** The refs and state of a mounted [CanvasBoard] (every ref and context
    is non-null from mount on), the [tool] prop of its latest render, and
    the bounding rectangle of its container, taken in whole pixels. *)
Record Engine := mkEngine
  { mainCanvas : Canvas; tempCanvas : Canvas; isDrawing : bool;
    historyRef : list ImageData; historyStep : Z;
    tool : DrawingTool; containerRect : nat * nat }.

Definition withMain (e : Engine) (c : Canvas) : Engine :=
  mkEngine c (tempCanvas e) (isDrawing e) (historyRef e) (historyStep e)
    (tool e) (containerRect e).

Definition withTemp (e : Engine) (c : Canvas) : Engine :=
  mkEngine (mainCanvas e) c (isDrawing e) (historyRef e) (historyStep e)
    (tool e) (containerRect e).

Definition withDrawing (e : Engine) (b : bool) : Engine :=
  mkEngine (mainCanvas e) (tempCanvas e) b (historyRef e) (historyStep e)
    (tool e) (containerRect e).

Definition withHistory (e : Engine) (h : list ImageData) (s : Z) : Engine :=
  mkEngine (mainCanvas e) (tempCanvas e) (isDrawing e) h s (tool e) (containerRect e).

Definition withTool (e : Engine) (t : DrawingTool) : Engine :=
  mkEngine (mainCanvas e) (tempCanvas e) (isDrawing e) (historyRef e) (historyStep e)
    t (containerRect e).

Definition withContainer (e : Engine) (r : nat * nat) : Engine :=
  mkEngine (mainCanvas e) (tempCanvas e) (isDrawing e) (historyRef e) (historyStep e)
    (tool e) r.

Definition len {A : Type} (l : list A) : Z := Z.of_nat (length l).

(** [arr.slice(0, e)]: a negative end counts from the end of the array. *)
Definition slice0 {A : Type} (l : list A) (e : Z) : list A :=
  if e <? 0 then firstn (Z.to_nat (Z.max (len l + e) 0)) l
  else firstn (Z.to_nat e) l.

(** [arr[i]]: [undefined] outside the array. *)
Definition index {A : Type} (l : list A) (i : Z) : option A :=
  if i <? 0 then None else nth_error l (Z.to_nat i).

Definition HISTORY_CAP : Z := 50.

Definition saveToHistory (e : Engine) : Engine :=
  let h1 := if historyStep e <? len (historyRef e) - 1
            then slice0 (historyRef e) (historyStep e + 1)
            else historyRef e in
  let imageData := getImageData (mainCanvas e) in
  let h2 := h1 ++ [imageData] in
  let s2 := len h2 - 1 in
  if len h2 >? HISTORY_CAP
  then withHistory e (tl h2) (s2 - 1)
  else withHistory e h2 s2.

Definition fullRect (w h : nat) : Rect :=
  mkRect 0 0 (inject_Z (Z.of_nat w)) (inject_Z (Z.of_nat h)).

Definition applyHistoryItem (imageData : ImageData) (e : Engine) : Engine :=
  let c := mainCanvas e in
  if (iwidth imageData =? cwidth c)%nat && (iheight imageData =? cheight c)%nat
  then withMain e (putImageData imageData c)
  else
    let temp := putImageData imageData
                  (newCanvas (iwidth imageData) (iheight imageData)) in
    withMain e
      (restore
         (drawImageScaled (bitmap temp) (fullRect (cwidth c) (cheight c))
            (fillRect (set_fillStyle white (save c))))).

(** First effect: set up both contexts, paint the main canvas white and
    take the initial snapshot. *)
Definition initEffect (e : Engine) : Engine :=
  let m := fillRect (set_fillStyle white
             (set_lineJoin JoinRound (set_lineCap CapRound (mainCanvas e)))) in
  let t := set_lineJoin JoinRound (set_lineCap CapRound (tempCanvas e)) in
  let e1 := withTemp (withMain e m) t in
  if (length (historyRef e1) =? 0)%nat then saveToHistory e1 else e1.

Definition handleResize (e : Engine) : Engine :=
  let '(width, height) := containerRect e in
  let m := mainCanvas e in
  if (cwidth m =? width)%nat && (cheight m =? height)%nat then e
  else
    let snapshot := drawImage (bitmap m) (newCanvas (cwidth m) (cheight m)) in
    let m1 := newCanvas width height in
    let t1 := newCanvas width height in
    let m2 := drawImageScaled (bitmap snapshot) (fullRect width height)
                (fillRect (set_fillStyle white m1)) in
    let m3 := set_lineJoin JoinRound (set_lineCap CapRound m2) in
    let t2 := set_lineJoin (joinOf (shape (tool e)))
                (set_lineCap (capOf (shape (tool e))) t1) in
    withTemp (withMain e m3) t2.

(** Third effect: runs after every change of the [tool] prop. *)
Definition toolEffect (e : Engine) : Engine :=
  withTemp e (set_lineJoin (joinOf (shape (tool e)))
                (set_lineCap (capOf (shape (tool e))) (tempCanvas e))).

Definition exportImage (e : Engine) : string * Engine :=
  (toDataURL (mainCanvas e), e).

Definition clearCanvas (e : Engine) : Engine :=
  let m := restore (fillRect (set_fillStyle white
             (set_globalAlpha 1%Q (save (mainCanvas e))))) in
  let e1 := saveToHistory (withMain e m) in
  withTemp e1 (clearRect (tempCanvas e1)).

Definition undo (e : Engine) : Engine :=
  if historyStep e >? 0 then
    let e1 := withHistory e (historyRef e) (historyStep e - 1) in
    match index (historyRef e1) (historyStep e1) with
    | Some previousData => applyHistoryItem previousData e1
    | None => e1
    end
  else e.

Definition redo (e : Engine) : Engine :=
  if historyStep e <? len (historyRef e) - 1 then
    let e1 := withHistory e (historyRef e) (historyStep e + 1) in
    match index (historyRef e1) (historyStep e1) with
    | Some nextData => applyHistoryItem nextData e1
    | None => e1
    end
  else e.

Definition QofNat (n : nat) : Q := inject_Z (Z.of_nat n).

(** "Calculate Aspect Fit" of [loadImage], over the rationals. *)
Definition aspectFit (imgW imgH canvasWidth canvasHeight : nat) : Rect :=
  let imgRatio := (QofNat imgW / QofNat imgH)%Q in
  let canvasRatio := (QofNat canvasWidth / QofNat canvasHeight)%Q in
  if negb (Qle_bool imgRatio canvasRatio) then
    let drawHeight := (QofNat canvasWidth / imgRatio)%Q in
    mkRect 0 ((QofNat canvasHeight - drawHeight) / 2)%Q (QofNat canvasWidth) drawHeight
  else
    let drawWidth := (QofNat canvasHeight * imgRatio)%Q in
    mkRect ((QofNat canvasWidth - drawWidth) / 2)%Q 0 drawWidth (QofNat canvasHeight).

(** [img.onload] of [loadImage]: runs once the image has been decoded. *)
Definition onload (img : ImageData) (e : Engine) : Engine :=
  let c := mainCanvas e in
  let m := fillRect (set_fillStyle white (save c)) in
  let r := aspectFit (iwidth img) (iheight img) (cwidth c) (cheight c) in
  saveToHistory (withMain e (restore (drawImageScaled img r m))).

(** [loadImage(src)]: [decoded] is the outcome of decoding [src]; only
    [onload] is installed, so a failed decode runs nothing. *)
Definition loadImage (decoded : option ImageData) (e : Engine) : Engine :=
  match decoded with
  | Some img => onload img e
  | None => e
  end.

(** The handlers take the pointer position already translated by
    [getCoordinates] into canvas-local coordinates. *)
Definition startDrawing (p : Point) (e : Engine) : Engine :=
  let t := tempCanvas e in
  let t1 := moveTo p (beginPath t) in
  let t2 := set_strokeStyle
              (if mode_eqb (mode (tool e)) eraser then white else color (tool e)) t1 in
  let t3 := set_lineWidth (width (tool e)) t2 in
  let t4 := stroke (lineTo (Qplus (fst p) (1 # 10), snd p) t3) in
  withTemp (withDrawing e true) t4.

Definition draw (p : Point) (e : Engine) : Engine :=
  if negb (isDrawing e) then e
  else withTemp e (stroke (lineTo p (tempCanvas e))).

Definition compositeAlpha (t : DrawingTool) : Q :=
  if mode_eqb (mode t) eraser then 1%Q else opacity t.

Definition stopDrawing (e : Engine) : Engine :=
  if negb (isDrawing e) then e
  else
    let e0 := withDrawing e false in
    let m := restore (drawImage (bitmap (tempCanvas e0))
               (set_globalAlpha (compositeAlpha (tool e0)) (save (mainCanvas e0)))) in
    let e1 := saveToHistory (withMain e0 m) in
    withTemp e1 (beginPath (clearRect (tempCanvas e1))).

(** ** Event loop *)

(** Size of a laid-out container: positive, in whole pixels. *)
Definition Size : Type := (positive * positive)%type.

Definition px (s : Size) : nat * nat := (Pos.to_nat (fst s), Pos.to_nat (snd s)).

Inductive Event :=
| PointerDown (p : Point)          (* onMouseDown / onTouchStart *)
| PointerMove (p : Point)          (* onMouseMove / onTouchMove *)
| PointerUp                        (* onMouseUp / onMouseLeave / onTouchEnd *)
| SetTool (t : DrawingTool)        (* the host re-renders with a new tool *)
| Layout (s : Size)                (* the container's rectangle changes *)
| WindowResize                     (* window 'resize' event *)
| ExportImage
| ClearCanvas
| Undo
| Redo
| ImageLoaded (img : ImageData).   (* a pending loadImage fires onload *)

Definition step (ev : Event) (e : Engine) : Engine :=
  match ev with
  | PointerDown p => startDrawing p e
  | PointerMove p => draw p e
  | PointerUp => stopDrawing e
  | SetTool t =>
      let e1 := withTool e t in
      let e2 := if shape_eqb (shape t) (shape (tool e)) then e1 else handleResize e1 in
      toolEffect e2
  | Layout s => withContainer e (px s)
  | WindowResize => handleResize e
  | ExportImage => snd (exportImage e)
  | ClearCanvas => clearCanvas e
  | Undo => undo e
  | Redo => redo e
  | ImageLoaded img => loadImage (Some img) e
  end.

Fixpoint run (evs : list Event) (e : Engine) : Engine :=
  match evs with
  | [] => e
  | ev :: rest => run rest (step ev e)
  end.

(** The component before its effects have run. *)
Definition initial (t : DrawingTool) (rect : Size) : Engine :=
  mkEngine defaultCanvas defaultCanvas false [] (-1) t (px rect).

(** Mounting runs the three effects in order. *)
Definition mount (t : DrawingTool) (rect : Size) : Engine :=
  toolEffect (handleResize (initEffect (initial t rect))).

Definition reachable (e : Engine) : Prop :=
  exists t rect evs, e = run evs (mount t rect).

(** One complete stroke: pointer down, moves, pointer up. *)
Definition strokeEvents (s : Point * list Point) : list Event :=
  PointerDown (fst s) :: map PointerMove (snd s) ++ [PointerUp].

End CanvasAPI.

(** ** A reference rasteriser

    One concrete [Raster], used to run the component on explicit inputs:
    exact source-over compositing rounded to 8 bits, nearest-neighbour
    resampling at pixel centres, strokes that cover every pixel whose
    centre lies within half the line width of a path segment, and a
    textual stand-in for the PNG encoder. *)

Definition roundQ (q : Q) : Z := Qfloor (q + (1 # 2)).

Definition refBlend (a : Q) (s d : Pixel) : Pixel :=
  if alpha s =? 0 then d
  else if Qeq_bool a 1 && (alpha s =? 255) then s
  else
    let sa := (a * (alpha s # 255))%Q in
    let da := (alpha d # 255)%Q in
    let ao := (sa + da * (1 - sa))%Q in
    let ch (cs cd : Z) : Z :=
      if Qeq_bool ao 0 then 0
      else roundQ ((inject_Z cs * sa + inject_Z cd * da * (1 - sa)) / ao) in
    mkPixel (ch (red s) (red d)) (ch (green s) (green d)) (ch (blue s) (blue d))
      (if alpha d =? 255 then 255 else roundQ (255 * ao)).

Definition Qlt_bool (a b : Q) : bool := negb (Qle_bool b a).

Definition pixelAt (img : ImageData) (x y : nat) : Pixel :=
  nth x (nth y (data img) []) transparent.

Definition refSample (src : ImageData) (r : Rect) (x y : nat) : Pixel :=
  let cx := (QofNat x + (1 # 2))%Q in
  let cy := (QofNat y + (1 # 2))%Q in
  if (iwidth src =? 0)%nat || (iheight src =? 0)%nat then transparent
  else if Qle_bool (rx r) cx && Qlt_bool cx (rx r + rw r)
     && Qle_bool (ry r) cy && Qlt_bool cy (ry r + rh r)
  then
    let sx := Qfloor ((cx - rx r) * QofNat (iwidth src) / rw r) in
    let sy := Qfloor ((cy - ry r) * QofNat (iheight src) / rh r) in
    pixelAt src (Z.to_nat sx) (Z.to_nat sy)
  else transparent.

(** Squared distance from [c] to the segment from [a] to [b]. *)
Definition dist2 (c a b : Point) : Q :=
  let dx := (fst b - fst a)%Q in
  let dy := (snd b - snd a)%Q in
  let l2 := (dx * dx + dy * dy)%Q in
  let t0 := if Qeq_bool l2 0 then 0%Q
            else (((fst c - fst a) * dx + (snd c - snd a) * dy) / l2)%Q in
  let t := if Qle_bool t0 0 then 0%Q else if Qle_bool 1 t0 then 1%Q else t0 in
  let px := (fst a + t * dx - fst c)%Q in
  let py := (snd a + t * dy - snd c)%Q in
  (px * px + py * py)%Q.

Fixpoint nearSubpath (c : Point) (r2 : Q) (sub : list Point) : bool :=
  match sub with
  | a :: (b :: _) as rest => Qle_bool (dist2 c a b) r2 || nearSubpath c r2 rest
  | _ => false
  end.

Definition refStrokeAt (p : Path) (s : DrawState) (x y : nat) : Pixel :=
  let c := ((QofNat x + (1 # 2))%Q, (QofNat y + (1 # 2))%Q) in
  let r2 := ((lineWidth s / 2) * (lineWidth s / 2))%Q in
  if existsb (nearSubpath c r2) p then strokeStyle s else transparent.

Definition showZ (z : Z) : string := NilZero.string_of_int (Z.to_int z).

Definition showPixel (p : Pixel) : string :=
  (showZ (red p) ++ "," ++ showZ (green p) ++ "," ++ showZ (blue p) ++ ","
   ++ showZ (alpha p) ++ ";")%string.

Definition refEncodePNG (img : ImageData) : string :=
  ("data:image/png;" ++ showZ (Z.of_nat (iwidth img)) ++ "x"
   ++ showZ (Z.of_nat (iheight img)) ++ ":"
   ++ String.concat "" (map showPixel (List.concat (data img))))%string.

Definition refRaster : Raster := mkRaster refBlend refSample refStrokeAt refEncodePNG.

(** ** Specification-level notions *)

Section Specs.
Context {R : Raster}.

Definition rowsShaped (w h : nat) (rs : list (list Pixel)) : Prop :=
  length rs = h /\ Forall (fun r => length r = w) rs.

Definition opaqueRows (rs : list (list Pixel)) : Prop :=
  Forall (Forall (fun p => alpha p = 255)) rs.

(** A well-formed, fully opaque bitmap. *)
Definition solid (img : ImageData) : Prop :=
  rowsShaped (iwidth img) (iheight img) (data img) /\ opaqueRows (data img).

Definition whiteRows (w h : nat) : list (list Pixel) := repeat (repeat white w) h.

(** Stretch-rescale: a white [w] by [h] surface with [src] drawn scaled to
    its full bounds. *)
Definition stretchFill (src : ImageData) (w h : nat) : ImageData :=
  mkImage w h
    (mapPixels (fun x y d => blend 1%Q (sample src (fullRect w h) x y) d) (whiteRows w h)).

(** Aspect-fit: a white [w] by [h] surface with [img] drawn into its
    fitted rectangle. *)
Definition fitted (img : ImageData) (w h : nat) : ImageData :=
  mkImage w h
    (mapPixels (fun x y d =>
        blend 1%Q (sample img (aspectFit (iwidth img) (iheight img) w h) x y) d)
       (whiteRows w h)).

(** What restoring snapshot [d] puts on a [w] by [h] surface. *)
Definition restored (d : ImageData) (w h : nat) : ImageData :=
  if (iwidth d =? w)%nat && (iheight d =? h)%nat then d else stretchFill d w h.

(** Compositing [scratch] onto [committed] with global alpha [a]. *)
Definition composite (a : Q) (scratch committed : ImageData) : ImageData :=
  mkImage (iwidth committed) (iheight committed)
    (overlay (overlay (blend a)) (data scratch) (data committed)).

Definition cleared (img : ImageData) : ImageData :=
  mkImage (iwidth img) (iheight img) (map (map (fun _ => transparent)) (data img)).


Fixpoint list_eqb {A : Type} (eqb : A -> A -> bool) (l1 l2 : list A) : bool :=
  match l1, l2 with
  | [], [] => true
  | a :: l1', b :: l2' => eqb a b && list_eqb eqb l1' l2'
  | _, _ => false
  end.

Definition image_eqb (a b : ImageData) : bool :=
  (iwidth a =? iwidth b)%nat && (iheight a =? iheight b)%nat
  && list_eqb (list_eqb pixel_eqb) (data a) (data b).

(** The committed surface shows the history entry under the cursor:
    restoring that entry now would leave every pixel as it is. *)
Definition showsCursor (e : Engine) : bool :=
  match index (historyRef e) (historyStep e) with
  | Some d => image_eqb (bitmap (mainCanvas (applyHistoryItem d e))) (bitmap (mainCanvas e))
  | None => false
  end.

(** Events that end in [saveToHistory]: a completed stroke, a clear, a
    decoded image. *)
Definition recording (ev : Event) (e : Engine) : bool :=
  match ev with
  | PointerUp => isDrawing e
  | ClearCanvas => true
  | ImageLoaded _ => true
  | _ => false
  end.

(** Events that may arrive while a stroke is open without touching the
    surfaces' size: pointer moves and tool changes. *)
Definition midStroke (ev : Event) : bool :=
  match ev with
  | PointerMove _ => true
  | SetTool _ => true
  | _ => false
  end.

(** The canvases already have the size of the container. *)
Definition settled (e : Engine) : bool :=
  (cwidth (mainCanvas e) =? fst (containerRect e))%nat
  && (cheight (mainCanvas e) =? snd (containerRect e))%nat.

(** Values of [tool.width] and [tool.opacity] the data model allows. *)
Definition widthOk (t : DrawingTool) : bool := negb (Qle_bool (width t) 0).
Definition opacityOk (t : DrawingTool) : bool :=
  Qle_bool 0 (opacity t) && Qle_bool (opacity t) 1.

(** Every pixel of the bitmap is [p]. *)
Definition allPixels (p : Pixel) (img : ImageData) : Prop :=
  Forall (Forall (eq p)) (data img).


(** The [tool] prop of the latest render after the given events. *)
Definition toolAfter (evs : list Event) (t : DrawingTool) : DrawingTool :=
  fold_left (fun t' ev => match ev with SetTool t1 => t1 | _ => t' end) evs t.

(** No surface and no snapshot is ever empty, so [getImageData] and
    [drawImage] from a canvas never raise. *)
Definition nonEmpty (d : ImageData) : Prop := (0 < iwidth d)%nat /\ (0 < iheight d)%nat.

Definition Sized (e : Engine) : Prop :=
  nonEmpty (bitmap (mainCanvas e)) /\ Forall nonEmpty (historyRef e)
  /\ (0 < fst (containerRect e))%nat /\ (0 < snd (containerRect e))%nat.

(** Invariant of the mounted component. *)
Definition Inv (e : Engine) : Prop :=
  0 <= historyStep e < len (historyRef e)
  /\ len (historyRef e) <= HISTORY_CAP
  /\ globalAlpha (style (mainCanvas e)) = 1%Q
  /\ solid (bitmap (mainCanvas e))
  /\ Forall solid (historyRef e).

End Specs.

(** ** Sample data for running the component *)

Definition black : Pixel := mkPixel 0 0 0 255.
Definition redPx : Pixel := mkPixel 255 0 0 255.
Definition bluePx : Pixel := mkPixel 0 0 255 255.

(** The host's initial tool. *)
Definition pen : DrawingTool := mkTool black 3 brush round 1.
Definition halfPen : DrawingTool := mkTool black 3 brush round (1 # 2).

Definition redBlue : ImageData := mkImage 2 1 [[redPx; bluePx]].

Definition centre : Point := (1 # 2, 1 # 2)%Q.

(** A freshly mounted board in a 2 by 1 container. *)
Definition board : Engine := mount (R := refRaster) pen (2, 1)%positive.

(** A single tap. *)
Definition dot : Point * list Point := (centre, []).

Definition wideRed : ImageData := mkImage 200 100 (repeat (repeat redPx 200) 100).

(** A 2 by 1 board showing [redBlue], then shrunk to 1 by 1 and grown back. *)
Definition twiceResized : Engine :=
  run (R := refRaster)
    [ImageLoaded redBlue; Layout (1, 1)%positive; WindowResize; Layout (2, 1)%positive; WindowResize]
    (mount (R := refRaster) pen (2, 1)%positive).

(** ** Further notions for the component *)

(** The state of the main context once the first effect has run: white
    fill, round caps and joins, nothing saved. *)
Definition roundCtx : Context2D :=
  mkCtx (mkDrawState white black 1%Q CapRound JoinRound 1%Q) [] [].

(** A scratch canvas of the given size, set up for the given tool shape. *)
Definition scratchOk (sh : Shape) (w h : nat) (c : Canvas) : Prop :=
  cwidth c = w /\ cheight c = h
  /\ rowsShaped w h (data (bitmap c))
  /\ lineCap (style c) = capOf sh /\ lineJoin (style c) = joinOf sh
  /\ saved (ctx c) = [].

(** Second invariant of the mounted component: the main context is as the
    effects left it, and the scratch canvas has the size of the main
    canvas and the caps and joins of the current tool. *)
Definition Tidy (e : Engine) : Prop :=
  ctx (mainCanvas e) = roundCtx
  /\ scratchOk (shape (tool e)) (cwidth (mainCanvas e)) (cheight (mainCanvas e))
       (tempCanvas e).

(** Pointer-down and pointer-move events. *)
Definition pointerOnly (ev : Event) : bool :=
  match ev with
  | PointerDown _ => true
  | PointerMove _ => true
  | _ => false
  end.

(** ** The resize handler on the rectangle the browser reports

    [getBoundingClientRect()] gives the container's width and height as
    numbers that need not be whole (a height of 40vh, a zoomed page).
    [handleResize] above is the handler for a container of whole pixels;
    [handleResizeAt] is the same code on any width and height. *)

(** WebIDL's conversion of a number to [unsigned long]: the integer part,
    modulo 2^32. *)
Definition integerPart (x : Q) : Z := if Qle_bool 0 x then Qfloor x else Qceiling x.

Definition toUnsignedLong (x : Q) : Z := integerPart x mod 4294967296.

(** [canvas.width = x] and [canvas.height = x]: the attribute reflects an
    unsigned long, and a value above 2147483647 sets its default. *)
Definition assignedSize (fallback : nat) (x : Q) : nat :=
  let v := toUnsignedLong x in
  if v <=? 2147483647 then Z.to_nat v else fallback.

(** The rectangle [(0, 0, width, height)] handed to [fillRect] and
    [drawImage]. *)
Definition rectOf (width height : Q) : Rect := mkRect 0 0 width height.

(** [handleResize] with [{ width, height }] as [getBoundingClientRect()]
    returned them.  The canvases get the integer parts of the two numbers,
    so [fillRect(0, 0, width, height)] covers the whole canvas when both
    are non-negative, and lies off the canvas when one is negative. *)
Definition handleResizeAt {R : Raster} (width height : Q) (e : Engine) : Engine :=
  let m := mainCanvas e in
  if Qeq_bool (QofNat (cwidth m)) width && Qeq_bool (QofNat (cheight m)) height then e
  else
    let snapshot := drawImage (bitmap m) (newCanvas (cwidth m) (cheight m)) in
    let m1 := newCanvas (assignedSize 300 width) (assignedSize 150 height) in
    let t1 := newCanvas (assignedSize 300 width) (assignedSize 150 height) in
    let m1' := set_fillStyle white m1 in
    let filled := if Qle_bool 0 width && Qle_bool 0 height then fillRect m1' else m1' in
    let m2 := drawImageScaled (bitmap snapshot) (rectOf width height) filled in
    let m3 := set_lineJoin JoinRound (set_lineCap CapRound m2) in
    let t2 := set_lineJoin (joinOf (shape (tool e)))
                (set_lineCap (capOf (shape (tool e))) t1) in
    withTemp (withMain e m3) t2.

(** A white [w] by [h] surface with [src] drawn scaled into [r]. *)
Definition stretchInto {R : Raster} (src : ImageData) (r : Rect) (w h : nat) : ImageData :=
  mkImage w h
    (mapPixels (fun x y d => blend 1%Q (sample src r x y) d) (whiteRows w h)).

(** The number has no fractional part. *)
Definition whole (x : Q) : bool := Qeq_bool (inject_Z (Qfloor x)) x.

(** A side of a laid-out container: at least one pixel, and within the
    range of a canvas dimension. *)
Definition sideOk (x : Q) : bool := Qle_bool 1 x && Qle_bool x 2147483647.

(** The canvas dimension a side gives. *)
Definition pixels (x : Q) : nat := Z.to_nat (Qfloor x).

(** A 5 by 1 image with five different pixels. *)
Definition fiveColours : ImageData :=
  mkImage 5 1 [[redPx; bluePx; mkPixel 0 255 0 255; black; mkPixel 255 255 0 255]].

(** ** The image service (src/services/geminiService.ts)

    The two pure pieces of [generateImageFromSketch]: cleaning the sketch's
    data URL before the request, and reading the parts of the response. *)

(** [dropPrefix p s] is what follows [p] in [s], when [s] starts with [p]. *)
Fixpoint dropPrefix (p s : string) : option string :=
  match p with
  | EmptyString => Some s
  | String a p' =>
      match s with
      | String b s' => if Ascii.eqb a b then dropPrefix p' s' else None
      | EmptyString => None
      end
  end.

(** [base64Sketch.replace(/^data:image\/(png|jpeg|jpg);base64,/, '')]:
    anchored at the start, the alternatives tried in order, each followed
    by [;base64,]. *)
Definition cleanBase64 (base64Sketch : string) : string :=
  match dropPrefix "data:image/" base64Sketch with
  | None => base64Sketch
  | Some rest =>
      match dropPrefix "png;base64," rest with
      | Some b => b
      | None =>
          match dropPrefix "jpeg;base64," rest with
          | Some b => b
          | None =>
              match dropPrefix "jpg;base64," rest with
              | Some b => b
              | None => base64Sketch
              end
          end
      end
  end.

(** A part of the response: [inlineData] is the data of its blob when it
    has one, [text] its text when it has one. *)
Record Part := mkPart { inlineData : option string; text : option string }.
Record Content := mkContent { parts : option (list Part) }.
Record Candidate := mkCandidate { content : option Content }.
Record GenerateContentResponse := mkResponse { candidates : option (list Candidate) }.

(** What the service can raise while reading a response. *)
Inductive Outcome (A : Type) : Type :=
| Ok (a : A)
| TypeError.

Arguments Ok {A} a.
Arguments TypeError {A}.

(** One round of the loop over the parts, on [(resultText, resultImage)]. *)
Definition readPart (acc : string * string) (part : Part) : string * string :=
  match inlineData part with
  | Some d => (fst acc, "data:image/png;base64," ++ d)%string
  | None =>
      match text part with
      | Some t => if (t =? "")%string then acc else ((fst acc ++ t)%string, snd acc)
      | None => acc
      end
  end.

(** The "Parse response" block: [(text, imageUrl)] of the returned object.
    An empty [candidates] array makes [response.candidates[0].content]
    raise. *)
Definition parseResponse (response : GenerateContentResponse) : Outcome (string * string) :=
  match candidates response with
  | None => Ok (EmptyString, EmptyString)
  | Some [] => TypeError
  | Some (c :: _) =>
      match content c with
      | None => Ok (EmptyString, EmptyString)
      | Some ct =>
          match parts ct with
          | None => Ok (EmptyString, EmptyString)
          | Some ps => Ok (fold_left readPart ps (EmptyString, EmptyString))
          end
      end
  end.

(** The text a part adds to the result, and the data of the last blob. *)
Definition partText (part : Part) : string :=
  match inlineData part, text part with
  | None, Some t => t
  | _, _ => EmptyString
  end.

Definition lastBlob (ps : list Part) : option string :=
  fold_left (fun acc part => match inlineData part with Some d => Some d | None => acc end)
    ps None.

(** The three headers the cleaning removes. *)
Definition headers : list string :=
  ["data:image/png;base64,"; "data:image/jpeg;base64,"; "data:image/jpg;base64,"]%string.

(** The parts the loop runs over: those of the first candidate, if any. *)
Definition firstParts (response : GenerateContentResponse) : list Part :=
  match candidates response with
  | Some (c :: _) =>
      match content c with
      | Some ct => match parts ct with Some ps => ps | None => [] end
      | None => []
      end
  | _ => []
  end.

(** * Proofs *)

(** ** Lists of rows *)

Lemma imapFrom_length {A B : Type} (f : nat -> A -> B) (l : list A) (i : nat) :
  length (imapFrom f i l) = length l.
Proof.
  revert i; induction l as [|a l IH]; intro i; simpl; [reflexivity|].
  now rewrite IH.
Qed.

Lemma imapFrom_nth {A B : Type} (f : nat -> A -> B) (l : list A) (i n : nat) (a : A) (b : B) :
  (n < length l)%nat -> nth n (imapFrom f i l) b = f (i + n)%nat (nth n l a).
Proof.
  revert i n; induction l as [|x l IH]; intros i n Hn; simpl in *; [lia|].
  destruct n as [|n].
  - now rewrite Nat.add_0_r.
  - rewrite (IH (S i) n) by lia. f_equal; lia.
Qed.

Lemma imapFrom_Forall {A B : Type} (P : B -> Prop) (f : nat -> A -> B) (l : list A) (i : nat) :
  (forall j a, In a l -> P (f j a)) -> Forall P (imapFrom f i l).
Proof.
  revert i; induction l as [|x l IH]; intros i H; simpl; constructor.
  - apply H; now left.
  - apply IH; intros j a Ha; apply H; now right.
Qed.

Lemma overlay_length {A : Type} (f : A -> A -> A) (src dst : list A) :
  length (overlay f src dst) = length dst.
Proof.
  revert src; induction dst as [|d ds IH]; intros [|s ss]; simpl; try reflexivity.
  now rewrite IH.
Qed.

Lemma overlay_Forall {A : Type} (P : A -> Prop) (f : A -> A -> A) (src dst : list A) :
  (forall s d, In s src -> P d -> P (f s d)) -> Forall P dst -> Forall P (overlay f src dst).
Proof.
  revert src; induction dst as [|d ds IH]; intros [|s ss] Hf Hd; simpl; auto.
  inversion Hd; subst. constructor.
  - apply Hf; [now left|assumption].
  - apply IH; [|assumption]. intros s' d' Hs; apply Hf; now right.
Qed.

Lemma overlay_replace {A : Type} (P : A -> Prop) (f : A -> A -> A) (src dst : list A) :
  length src = length dst ->
  Forall P src ->
  (forall s d, P s -> In d dst -> length src = length dst -> f s d = s) ->
  overlay f src dst = src.
Proof.
  revert dst; induction src as [|s ss IH]; intros [|d ds] Hl HP Hf;
    simpl in Hl; try discriminate; simpl; [reflexivity|].
  inversion HP; subst. rewrite Hf; [|assumption|now left|simpl; congruence].
  f_equal. apply IH; [congruence|assumption|].
  intros s' d' Hs' Hd' _. apply Hf; [assumption|now right|simpl; congruence].
Qed.

Lemma map_const_repeat {A B : Type} (c : B) (l : list A) :
  map (fun _ => c) l = repeat c (length l).
Proof. induction l; simpl; congruence. Qed.

Lemma list_eqb_eq {A : Type} (eqb : A -> A -> bool) (l1 l2 : list A) :
  (forall a b, eqb a b = true -> a = b) -> list_eqb eqb l1 l2 = true -> l1 = l2.
Proof.
  intro H; revert l2; induction l1 as [|a l1 IH]; intros [|b l2] E;
    simpl in E; try discriminate; [reflexivity|].
  apply andb_true_iff in E as [E1 E2]. f_equal; auto.
Qed.

Lemma pixel_eqb_eq (p q : Pixel) : pixel_eqb p q = true -> p = q.
Proof.
  destruct p, q; unfold pixel_eqb; simpl; intro E.
  repeat (apply andb_true_iff in E as [E ?]).
  apply Z.eqb_eq in E. f_equal; try assumption; now apply Z.eqb_eq.
Qed.

Lemma image_eqb_eq (a b : ImageData) : image_eqb a b = true -> a = b.
Proof.
  destruct a, b; unfold image_eqb; simpl; intro E.
  apply andb_true_iff in E as [E E3]. apply andb_true_iff in E as [E1 E2].
  apply Nat.eqb_eq in E1, E2. f_equal; try assumption.
  apply (list_eqb_eq _ _ _ (fun r1 r2 => list_eqb_eq pixel_eqb r1 r2 pixel_eqb_eq) E3).
Qed.

(** ** Bitmaps *)

Section BitmapFacts.
Context {R : Raster} (L : RasterLaws R).

Lemma shaped_map (f : Pixel -> Pixel) (w h : nat) (rs : list (list Pixel)) :
  rowsShaped w h rs -> rowsShaped w h (map (map f) rs).
Proof.
  intros [Hh Hw]; split.
  - now rewrite length_map.
  - apply Forall_map. eapply Forall_impl; [|exact Hw].
    intros r Hr; simpl. now rewrite length_map.
Qed.

Lemma shaped_mapPixels (f : nat -> nat -> Pixel -> Pixel) (w h : nat) (rs : list (list Pixel)) :
  rowsShaped w h rs -> rowsShaped w h (mapPixels f rs).
Proof.
  intros [Hh Hw]; split; unfold mapPixels.
  - now rewrite imapFrom_length.
  - apply imapFrom_Forall. intros j r Hr. rewrite imapFrom_length.
    rewrite Forall_forall in Hw; now apply Hw.
Qed.

Lemma shaped_overlay (f : Pixel -> Pixel -> Pixel) (w h : nat) (src dst : list (list Pixel)) :
  rowsShaped w h dst -> rowsShaped w h (overlay (overlay f) src dst).
Proof.
  intros [Hh Hw]; split.
  - now rewrite overlay_length.
  - apply overlay_Forall; [|exact Hw].
    intros s d _ Hd. now rewrite overlay_length.
Qed.

Lemma shaped_repeat (p : Pixel) (w h : nat) : rowsShaped w h (repeat (repeat p w) h).
Proof.
  split; [apply repeat_length|].
  apply Forall_forall; intros r Hr. apply repeat_spec in Hr; subst. apply repeat_length.
Qed.

Lemma shaped_unique (p : Pixel) (w h : nat) (rs : list (list Pixel)) :
  rowsShaped w h rs -> map (map (fun _ => p)) rs = repeat (repeat p w) h.
Proof.
  intros [Hh Hw]. subst h. induction rs as [|r rs IH]; simpl; [reflexivity|].
  inversion Hw; subst. rewrite IH by assumption.
  now rewrite map_const_repeat.
Qed.

Lemma fill_white (rs : list (list Pixel)) (w h : nat) :
  rowsShaped w h rs -> map (map (blend 1%Q white)) rs = whiteRows w h.
Proof.
  intro H. unfold whiteRows. rewrite <- (shaped_unique white H).
  apply map_ext; intro r. apply map_ext; intro p.
  now apply (blend_opaque L).
Qed.

Lemma opaque_repeat (p : Pixel) (w h : nat) :
  alpha p = 255 -> opaqueRows (repeat (repeat p w) h).
Proof.
  intro Hp. apply Forall_forall; intros r Hr. apply repeat_spec in Hr; subst.
  apply Forall_forall; intros q Hq. apply repeat_spec in Hq; now subst.
Qed.

Lemma opaque_mapPixels (a : Q) (g : nat -> nat -> Pixel) (rs : list (list Pixel)) :
  opaqueRows rs -> opaqueRows (mapPixels (fun x y d => blend a (g x y) d) rs).
Proof.
  intro H. unfold mapPixels. apply imapFrom_Forall; intros y r Hr.
  apply imapFrom_Forall; intros x p Hp.
  apply (blend_keeps_opaque L).
  unfold opaqueRows in H. rewrite Forall_forall in H.
  specialize (H r Hr). rewrite Forall_forall in H. now apply H.
Qed.

Lemma opaque_overlay (a : Q) (src dst : list (list Pixel)) :
  opaqueRows dst -> opaqueRows (overlay (overlay (blend a)) src dst).
Proof.
  intro H. apply overlay_Forall; [|exact H].
  intros s d _ Hd. apply overlay_Forall; [|exact Hd].
  intros p q _ Hq. now apply (blend_keeps_opaque L).
Qed.

Lemma overlay_onto_blank (w h : nat) (src : list (list Pixel)) :
  rowsShaped w h src -> opaqueRows src ->
  overlay (overlay (blend 1%Q)) src (blankRows w h) = src.
Proof.
  intros [Hh Hw] Ho.
  apply overlay_replace
    with (P := fun r => length r = w /\ Forall (fun p => alpha p = 255) r).
  - unfold blankRows. now rewrite repeat_length.
  - apply Forall_forall; intros r Hr. unfold opaqueRows in Ho.
    rewrite Forall_forall in Hw, Ho. auto.
  - intros s d [Hs Hos] Hd _. apply repeat_spec in Hd; subst d.
    apply overlay_replace with (P := fun p => alpha p = 255).
    + now rewrite repeat_length.
    + assumption.
    + intros p q Hp _ _. now apply (blend_opaque L).
Qed.

Lemma overlay_put (w h : nat) (src dst : list (list Pixel)) :
  rowsShaped w h src -> rowsShaped w h dst ->
  overlay (overlay (fun s _ : Pixel => s)) src dst = src.
Proof.
  intros [Hh Hw] [Hh' Hw'].
  apply overlay_replace with (P := fun r => length r = w).
  - congruence.
  - assumption.
  - intros s d Hs Hd _. rewrite Forall_forall in Hw'. specialize (Hw' d Hd).
    apply overlay_replace with (P := fun _ => True).
    + congruence.
    + apply Forall_forall; auto.
    + reflexivity.
Qed.

Lemma solid_stretchFill (src : ImageData) (w h : nat) : solid (stretchFill src w h).
Proof.
  split; simpl.
  - apply shaped_mapPixels, shaped_repeat.
  - apply opaque_mapPixels, opaque_repeat. reflexivity.
Qed.

Lemma solid_fitted (img : ImageData) (w h : nat) : solid (fitted img w h).
Proof.
  split; simpl.
  - apply shaped_mapPixels, shaped_repeat.
  - apply opaque_mapPixels, opaque_repeat. reflexivity.
Qed.

Lemma solid_composite (a : Q) (s c : ImageData) : solid c -> solid (composite a s c).
Proof.
  intros [Hs Ho]; split; simpl.
  - now apply shaped_overlay.
  - now apply opaque_overlay.
Qed.

Lemma solid_restored (d : ImageData) (w h : nat) : solid d -> solid (restored d w h).
Proof.
  intro Hd. unfold restored.
  destruct ((iwidth d =? w)%nat && (iheight d =? h)%nat); [assumption|].
  apply solid_stretchFill.
Qed.

End BitmapFacts.

(** ** Canvas operations *)

Section CanvasFacts.
Context {R : Raster} (L : RasterLaws R).

Lemma image_eta (i : ImageData) : mkImage (iwidth i) (iheight i) (data i) = i.
Proof. now destruct i. Qed.

Lemma getImageData_bitmap (c : Canvas) : getImageData c = bitmap c.
Proof. apply image_eta. Qed.

(** [save(); globalAlpha = a; drawImage(src, 0, 0); restore()] *)
Lemma composite_main (src : ImageData) (a : Q) (c : Canvas) :
  restore (drawImage src (set_globalAlpha a (save c)))
  = mkCanvas (composite (if Qle_bool 0 a && Qle_bool a 1 then a
                         else globalAlpha (style c)) src (bitmap c)) (ctx c).
Proof.
  destruct c as [[w h rows] [[fs ss lw lc lj ga] p sv]].
  unfold set_globalAlpha. destruct (Qle_bool 0 a && Qle_bool a 1); reflexivity.
Qed.

(** [save(); globalAlpha = 1; fillStyle = '#ffffff'; fillRect(...); restore()] *)
Lemma clear_main (c : Canvas) :
  restore (fillRect (set_fillStyle white (set_globalAlpha 1%Q (save c))))
  = mkCanvas (mkImage (cwidth c) (cheight c)
                (map (map (blend 1%Q white)) (data (bitmap c)))) (ctx c).
Proof. destruct c as [[w h rows] [[fs ss lw lc lj ga] p sv]]. reflexivity. Qed.

(** [save(); fillStyle = '#ffffff'; fillRect(...); drawImage(src, r); restore()] *)
Lemma paint_main (src : ImageData) (r : Rect) (c : Canvas) :
  restore (drawImageScaled src r (fillRect (set_fillStyle white (save c))))
  = mkCanvas (mkImage (cwidth c) (cheight c)
                (mapPixels (fun x y d => blend (globalAlpha (style c)) (sample src r x y) d)
                   (map (map (blend (globalAlpha (style c)) white)) (data (bitmap c)))))
      (ctx c).
Proof. destruct c as [[w h rows] [[fs ss lw lc lj ga] p sv]]. reflexivity. Qed.

Lemma paint_solid (src : ImageData) (r : Rect) (c : Canvas) :
  globalAlpha (style c) = 1%Q -> solid (bitmap c) ->
  restore (drawImageScaled src r (fillRect (set_fillStyle white (save c))))
  = mkCanvas (mkImage (cwidth c) (cheight c)
                (mapPixels (fun x y d => blend 1%Q (sample src r x y) d)
                   (whiteRows (cwidth c) (cheight c)))) (ctx c).
Proof.
  intros Ha [Hs _]. rewrite paint_main, Ha.
  now rewrite (fill_white L Hs).
Qed.

Lemma put_new (d : ImageData) :
  rowsShaped (iwidth d) (iheight d) (data d) ->
  bitmap (putImageData d (newCanvas (iwidth d) (iheight d))) = d.
Proof.
  intro H. unfold putImageData, newCanvas, withRows, cwidth, cheight, blankImage, blankRows; simpl.
  rewrite (overlay_put H (shaped_repeat transparent _ _)). apply image_eta.
Qed.

Lemma put_same (d : ImageData) (c : Canvas) :
  iwidth d = cwidth c -> iheight d = cheight c ->
  rowsShaped (iwidth d) (iheight d) (data d) ->
  rowsShaped (cwidth c) (cheight c) (data (bitmap c)) ->
  putImageData d c = mkCanvas d (ctx c).
Proof.
  intros Hw Hh Hd Hc. unfold putImageData, withRows.
  rewrite <- Hw, <- Hh in Hc |- *. rewrite (overlay_put Hd Hc).
  now rewrite image_eta.
Qed.

(** The main canvas after [applyHistoryItem]. *)
Lemma applyHistoryItem_main (d : ImageData) (e : Engine) :
  globalAlpha (style (mainCanvas e)) = 1%Q -> solid (bitmap (mainCanvas e)) -> solid d ->
  applyHistoryItem d e
  = withMain e (mkCanvas (restored d (cwidth (mainCanvas e)) (cheight (mainCanvas e)))
                  (ctx (mainCanvas e))).
Proof.
  intros Ha Hm [Hd _]. unfold applyHistoryItem, restored.
  destruct ((iwidth d =? cwidth (mainCanvas e))%nat
            && (iheight d =? cheight (mainCanvas e))%nat) eqn:E.
  - apply andb_true_iff in E as [E1 E2]. apply Nat.eqb_eq in E1, E2.
    f_equal. apply put_same; try assumption. apply Hm.
  - f_equal. rewrite put_new by exact Hd. now rewrite paint_solid.
Qed.

End CanvasFacts.

(** ** The history array *)

Section HistoryFacts.
Context {R : Raster}.

Lemma saveToHistory_frame (e : Engine) :
  mainCanvas (saveToHistory e) = mainCanvas e
  /\ tempCanvas (saveToHistory e) = tempCanvas e
  /\ isDrawing (saveToHistory e) = isDrawing e
  /\ tool (saveToHistory e) = tool e
  /\ containerRect (saveToHistory e) = containerRect e.
Proof.
  unfold saveToHistory.
  destruct (len _ >? HISTORY_CAP); simpl; repeat split.
Qed.

Lemma toolEffect_frame (e : Engine) :
  mainCanvas (toolEffect e) = mainCanvas e
  /\ historyRef (toolEffect e) = historyRef e
  /\ historyStep (toolEffect e) = historyStep e
  /\ containerRect (toolEffect e) = containerRect e.
Proof. repeat split. Qed.

Lemma nth_error_tl {A : Type} (l : list A) (k : nat) :
  nth_error (tl l) k = nth_error l (S k).
Proof. destruct l; simpl; [now destruct k|reflexivity]. Qed.

Lemma len_app {A : Type} (l1 l2 : list A) : len (l1 ++ l2) = len l1 + len l2.
Proof. unfold len. rewrite length_app. lia. Qed.

Lemma kept_firstn (h : list ImageData) (s : Z) :
  0 <= s < len h ->
  (if s <? len h - 1 then slice0 h (s + 1) else h) = firstn (Z.to_nat (s + 1)) h.
Proof.
  intro Hs. destruct (s <? len h - 1) eqn:E.
  - unfold slice0. destruct (s + 1 <? 0) eqn:E'; [apply Z.ltb_lt in E'; lia|reflexivity].
  - apply Z.ltb_ge in E. symmetry. apply firstn_all2. unfold len in *. lia.
Qed.

(** The history after a record, below the cap and at the cap. *)
Lemma saveToHistory_history (e : Engine) :
  0 <= historyStep e < len (historyRef e) ->
  len (historyRef e) <= HISTORY_CAP ->
  let h2 := firstn (Z.to_nat (historyStep e + 1)) (historyRef e)
            ++ [getImageData (mainCanvas e)] in
  (historyStep e + 2 <= HISTORY_CAP ->
     historyRef (saveToHistory e) = h2
     /\ historyStep (saveToHistory e) = historyStep e + 1)
  /\ (HISTORY_CAP < historyStep e + 2 ->
     historyRef (saveToHistory e) = tl h2
     /\ historyStep (saveToHistory e) = historyStep e).
Proof.
  intros Hs Hc h2. unfold saveToHistory. rewrite (kept_firstn _ Hs). fold h2.
  assert (Hl : len h2 = historyStep e + 2).
  { unfold h2. rewrite len_app. unfold len at 1. rewrite length_firstn.
    unfold len in *. simpl. lia. }
  rewrite Hl. split; intro H.
  - destruct (historyStep e + 2 >? HISTORY_CAP) eqn:E;
      [apply Z.gtb_lt in E; lia|]. simpl. split; [reflexivity|lia].
  - destruct (historyStep e + 2 >? HISTORY_CAP) eqn:E.
    + simpl. split; [reflexivity|lia].
    + pose proof (Zgt_cases (historyStep e + 2) HISTORY_CAP) as G.
      rewrite E in G. lia.
Qed.

(** What every record guarantees about the cursor and its neighbours. *)
Lemma saveToHistory_cursor (e : Engine) :
  0 <= historyStep e < len (historyRef e) ->
  len (historyRef e) <= HISTORY_CAP ->
  let e' := saveToHistory e in
  historyStep e' = len (historyRef e') - 1
  /\ 1 <= historyStep e'
  /\ len (historyRef e') <= HISTORY_CAP
  /\ index (historyRef e') (historyStep e') = Some (getImageData (mainCanvas e))
  /\ index (historyRef e') (historyStep e' - 1) = index (historyRef e) (historyStep e).
Proof.
  intros Hs Hc e'. destruct (saveToHistory_history e Hs Hc) as [Hlo Hhi].
  set (n := Z.to_nat (historyStep e + 1)) in *.
  set (h := historyRef e) in *. set (x := getImageData (mainCanvas e)) in *.
  assert (Hn : (1 <= n <= length h)%nat) by (unfold n, len in *; lia).
  assert (Hf : length (firstn n h) = n) by (rewrite length_firstn; lia).
  assert (Hidx : index h (historyStep e) = nth_error h (n - 1)).
  { unfold index. destruct (historyStep e <? 0) eqn:E; [apply Z.ltb_lt in E; lia|].
    f_equal. unfold n. lia. }
  assert (Hlast : nth_error (firstn n h ++ [x]) n = Some x).
  { rewrite nth_error_app2 by lia. rewrite Hf, Nat.sub_diag. reflexivity. }
  assert (Hprev : nth_error (firstn n h ++ [x]) (n - 1) = nth_error h (n - 1)).
  { rewrite nth_error_app1 by lia. rewrite nth_error_firstn.
    destruct (n - 1 <? n)%nat eqn:E; [reflexivity|apply Nat.ltb_ge in E; lia]. }
  unfold HISTORY_CAP in *.
  destruct (Z_le_gt_dec (historyStep e + 2) 50) as [Hle|Hgt].
  - destruct (Hlo Hle) as [Hh Hst]. unfold e'. rewrite Hh, Hst, Hidx.
    assert (Hl2 : len (firstn n h ++ [x]) = historyStep e + 2).
    { rewrite len_app. unfold len. rewrite Hf. simpl. unfold n. lia. }
    rewrite Hl2. unfold index.
    replace (historyStep e + 1 <? 0) with false by (symmetry; apply Z.ltb_ge; lia).
    replace (historyStep e + 1 - 1 <? 0) with false by (symmetry; apply Z.ltb_ge; lia).
    replace (Z.to_nat (historyStep e + 1)) with n by reflexivity.
    replace (Z.to_nat (historyStep e + 1 - 1)) with (n - 1)%nat by (unfold n; lia).
    repeat split; try lia; assumption.
  - assert (Hgt' : 50 < historyStep e + 2) by lia.
    destruct (Hhi Hgt') as [Hh Hst]. unfold e'. rewrite Hh, Hst, Hidx.
    assert (Hn50 : n = 50%nat) by (unfold n, len in *; lia).
    assert (Hlt : length (tl (firstn n h ++ [x])) = 50%nat).
    { destruct (firstn n h ++ [x]) eqn:E; simpl.
      - apply (f_equal (@length _)) in E. rewrite length_app in E. simpl in E. lia.
      - apply (f_equal (@length _)) in E. rewrite length_app in E. simpl in E. lia. }
    unfold index, len. rewrite Hlt.
    replace (historyStep e <? 0) with false by (symmetry; apply Z.ltb_ge; lia).
    replace (historyStep e - 1 <? 0) with false by (symmetry; apply Z.ltb_ge; lia).
    rewrite !nth_error_tl.
    replace (S (Z.to_nat (historyStep e))) with n by (unfold n; lia).
    replace (S (Z.to_nat (historyStep e - 1))) with (n - 1)%nat by (unfold n; lia).
    repeat split; try lia; assumption.
Qed.

Lemma saveToHistory_Forall (P : ImageData -> Prop) (e : Engine) :
  Forall P (historyRef e) -> P (getImageData (mainCanvas e)) ->
  Forall P (historyRef (saveToHistory e)).
Proof.
  intros Hh Hx. unfold saveToHistory.
  assert (H1 : Forall P (if historyStep e <? len (historyRef e) - 1
                         then slice0 (historyRef e) (historyStep e + 1)
                         else historyRef e)).
  { destruct (historyStep e <? len (historyRef e) - 1); [|assumption].
    assert (Hf : forall k, Forall P (firstn k (historyRef e))).
    { intro k. rewrite <- (firstn_skipn k (historyRef e)) in Hh.
      now apply Forall_app in Hh. }
    unfold slice0. destruct (historyStep e + 1 <? 0); apply Hf. }
  assert (H2 : forall l, Forall P l -> Forall P (tl l)).
  { intros [|a l] Hl; simpl; [constructor|now inversion Hl]. }
  destruct (len _ >? HISTORY_CAP); simpl.
  - apply H2, Forall_app; split; [assumption|now constructor].
  - apply Forall_app; split; [assumption|now constructor].
Qed.

End HistoryFacts.

(** ** The invariant *)

Section InvariantFacts.
Context {R : Raster} (L : RasterLaws R).

Lemma Inv_same (e e' : Engine) :
  mainCanvas e' = mainCanvas e -> historyRef e' = historyRef e ->
  historyStep e' = historyStep e -> Inv e -> Inv e'.
Proof. unfold Inv. intros -> -> ->. auto. Qed.

(** Recording a solid main canvas re-establishes the invariant. *)
Lemma Inv_record (e : Engine) (m : Canvas) :
  Inv e -> globalAlpha (style m) = 1%Q -> solid (bitmap m) ->
  Inv (saveToHistory (withMain e m)).
Proof.
  intros (Hs & Hc & _ & _ & Hh) Ha Hm.
  destruct (saveToHistory_cursor (withMain e m) Hs Hc) as (H1 & H2 & H3 & _).
  destruct (saveToHistory_frame (withMain e m)) as (Hmain & _).
  unfold Inv. rewrite Hmain. simpl.
  refine (conj _ (conj _ (conj _ (conj _ _)))); try lia; try assumption.
  apply saveToHistory_Forall; simpl; [assumption|].
  now rewrite getImageData_bitmap.
Qed.

Lemma index_In {A : Type} (l : list A) (i : Z) (a : A) : index l i = Some a -> In a l.
Proof.
  unfold index. destruct (i <? 0); [discriminate|]. apply nth_error_In.
Qed.

Lemma index_Some {A : Type} (l : list A) (i : Z) :
  0 <= i < len l -> exists a, index l i = Some a.
Proof.
  intro H. unfold index. destruct (i <? 0) eqn:E; [apply Z.ltb_lt in E; lia|].
  destruct (nth_error l (Z.to_nat i)) eqn:N; [eauto|].
  apply nth_error_None in N. unfold len in H. lia.
Qed.

Lemma Inv_restore (e : Engine) (s : Z) (d : ImageData) :
  Inv e -> 0 <= s < len (historyRef e) -> index (historyRef e) s = Some d ->
  Inv (applyHistoryItem d (withHistory e (historyRef e) s)).
Proof.
  intros (Hs & Hc & Ha & Hm & Hh) Hs' Hd.
  assert (Sd : solid d).
  { rewrite Forall_forall in Hh. apply Hh. eapply index_In; eassumption. }
  rewrite (applyHistoryItem_main L); simpl; try assumption.
  unfold Inv; simpl. refine (conj _ (conj _ (conj _ (conj _ _)))); try lia; try assumption.
  apply (solid_restored L); assumption.
Qed.

Lemma Inv_undo (e : Engine) : Inv e -> Inv (undo e).
Proof.
  intro H. unfold undo. destruct (historyStep e >? 0) eqn:E; [|assumption].
  apply Z.gtb_lt in E. simpl.
  assert (Hr : 0 <= historyStep e - 1 < len (historyRef e)) by (destruct H; lia).
  destruct (index_Some _ Hr) as [d Hd]. rewrite Hd.
  now apply Inv_restore.
Qed.

Lemma Inv_redo (e : Engine) : Inv e -> Inv (redo e).
Proof.
  intro H. unfold redo. destruct (historyStep e <? len (historyRef e) - 1) eqn:E; [|assumption].
  apply Z.ltb_lt in E. simpl.
  assert (Hr : 0 <= historyStep e + 1 < len (historyRef e)) by (destruct H; lia).
  destruct (index_Some _ Hr) as [d Hd]. rewrite Hd.
  now apply Inv_restore.
Qed.

Lemma Inv_stopDrawing (e : Engine) : Inv e -> Inv (stopDrawing e).
Proof.
  intro H. unfold stopDrawing. destruct (negb (isDrawing e)); [assumption|].
  rewrite composite_main.
  eapply Inv_same; [| | |eapply Inv_record with (e := withDrawing e false)].
  - reflexivity.
  - reflexivity.
  - reflexivity.
  - apply (Inv_same (e := e)); auto.
  - simpl. apply H.
  - simpl. apply (solid_composite L). apply H.
Qed.

Lemma Inv_clearCanvas (e : Engine) : Inv e -> Inv (clearCanvas e).
Proof.
  intro H. unfold clearCanvas. rewrite clear_main.
  eapply Inv_same; [| | |eapply Inv_record with (e := e)]; try reflexivity.
  - assumption.
  - simpl. apply H.
  - destruct H as (_ & _ & _ & [Hs _] & _). simpl. rewrite (fill_white L Hs).
    split; simpl; [apply shaped_repeat|now apply opaque_repeat].
Qed.

Lemma onload_main (img : ImageData) (e : Engine) :
  Inv e ->
  onload img e
  = saveToHistory (withMain e
      (mkCanvas (fitted img (cwidth (mainCanvas e)) (cheight (mainCanvas e)))
         (ctx (mainCanvas e)))).
Proof.
  intros (_ & _ & Ha & Hm & _). unfold onload. now rewrite (paint_solid L).
Qed.

Lemma Inv_onload (img : ImageData) (e : Engine) : Inv e -> Inv (onload img e).
Proof.
  intro H. rewrite onload_main by assumption.
  apply Inv_record; [assumption| |apply (solid_fitted L)].
  simpl. apply H.
Qed.

(** The content of the snapshot canvas that [handleResize] draws. *)
Lemma snapshot_bitmap (c : Canvas) :
  solid (bitmap c) ->
  bitmap (drawImage (bitmap c) (newCanvas (cwidth c) (cheight c))) = bitmap c.
Proof.
  intros [Hs Ho]. unfold drawImage, newCanvas, withRows, cwidth, cheight, blankImage; simpl.
  rewrite (overlay_onto_blank L Hs Ho). apply image_eta.
Qed.

(** The main canvas once [handleResize] has resized and repainted it. *)
Lemma resized_main (b : ImageData) (w h : nat) :
  set_lineJoin JoinRound (set_lineCap CapRound
    (drawImageScaled b (fullRect w h) (fillRect (set_fillStyle white (newCanvas w h)))))
  = mkCanvas (stretchFill b w h)
      (mkCtx (mkDrawState white black 1%Q CapRound JoinRound 1%Q) [] []).
Proof.
  unfold drawImageScaled, fillRect, set_fillStyle, set_lineJoin, set_lineCap,
    newCanvas, withRows, withState, style, cwidth, cheight, blankImage, stretchFill; simpl.
  unfold blankRows. rewrite (fill_white L (shaped_repeat transparent w h)). reflexivity.
Qed.

Lemma handleResize_effective (e : Engine) :
  solid (bitmap (mainCanvas e)) ->
  ((cwidth (mainCanvas e) =? fst (containerRect e))%nat
   && (cheight (mainCanvas e) =? snd (containerRect e))%nat) = false ->
  handleResize e
  = withTemp (withMain e
      (mkCanvas (stretchFill (bitmap (mainCanvas e)) (fst (containerRect e))
                   (snd (containerRect e)))
         (mkCtx (mkDrawState white black 1%Q CapRound JoinRound 1%Q) [] [])))
      (set_lineJoin (joinOf (shape (tool e)))
         (set_lineCap (capOf (shape (tool e)))
            (newCanvas (fst (containerRect e)) (snd (containerRect e))))).
Proof.
  intros Hm E. unfold handleResize. destruct (containerRect e) as [w h]; cbn [fst snd] in *.
  rewrite E. rewrite snapshot_bitmap by exact Hm. now rewrite resized_main.
Qed.

Lemma Inv_handleResize (e : Engine) : Inv e -> Inv (handleResize e).
Proof.
  intro H.
  destruct ((cwidth (mainCanvas e) =? fst (containerRect e))%nat
            && (cheight (mainCanvas e) =? snd (containerRect e))%nat) eqn:E.
  - unfold handleResize. destruct (containerRect e) as [w h]; simpl in *. now rewrite E.
  - destruct H as (Hs & Hc & Ha & Hm & Hh).
    rewrite handleResize_effective by assumption. unfold Inv; simpl.
    refine (conj _ (conj _ (conj _ (conj _ _)))); try lia; try assumption; try reflexivity.
    apply (solid_stretchFill L).
Qed.

Lemma Inv_step (ev : Event) (e : Engine) : Inv e -> Inv (step ev e).
Proof.
  intro H. destruct ev; simpl.
  - eapply Inv_same; [| | |exact H]; reflexivity.
  - unfold draw. destruct (negb (isDrawing e)); [assumption|].
    eapply Inv_same; [| | |exact H]; reflexivity.
  - now apply Inv_stopDrawing.
  - apply (Inv_same (e := if shape_eqb (shape t) (shape (tool e)) then withTool e t
                          else handleResize (withTool e t))); try reflexivity.
    destruct (shape_eqb (shape t) (shape (tool e))).
    + eapply Inv_same; [| | |exact H]; reflexivity.
    + apply Inv_handleResize. eapply Inv_same; [| | |exact H]; reflexivity.
  - eapply Inv_same; [| | |exact H]; reflexivity.
  - now apply Inv_handleResize.
  - assumption.
  - now apply Inv_clearCanvas.
  - now apply Inv_undo.
  - now apply Inv_redo.
  - now apply Inv_onload.
Qed.

Lemma Inv_run (evs : list Event) (e : Engine) : Inv e -> Inv (run evs e).
Proof.
  revert e; induction evs as [|ev evs IH]; intros e H; simpl; [assumption|].
  apply IH. now apply Inv_step.
Qed.

End InvariantFacts.

(** ** Mounting *)

Section MountFacts.
Context {R : Raster} (L : RasterLaws R).

Lemma painted_new (w h : nat) :
  fillRect (set_fillStyle white (set_lineJoin JoinRound (set_lineCap CapRound (newCanvas w h))))
  = mkCanvas (mkImage w h (whiteRows w h))
      (mkCtx (mkDrawState white black 1%Q CapRound JoinRound 1%Q) [] []).
Proof.
  unfold fillRect, set_fillStyle, set_lineJoin, set_lineCap, newCanvas, withRows,
    withState, style, cwidth, cheight, blankImage, blankRows.
  cbn [bitmap ctx cur path saved iwidth iheight data fillStyle strokeStyle lineWidth
       lineCap lineJoin globalAlpha defaultCtx defaultState].
  rewrite (fill_white L (shaped_repeat transparent w h)). reflexivity.
Qed.

Lemma saveToHistory_first (e : Engine) :
  historyRef e = [] -> historyStep e = -1 ->
  saveToHistory e = withHistory e [getImageData (mainCanvas e)] 0.
Proof.
  intros Hh Hs. unfold saveToHistory. rewrite Hh, Hs. reflexivity.
Qed.

Lemma initEffect_fresh (w h : nat) (t : DrawingTool) (rect : nat * nat) :
  initEffect (mkEngine (newCanvas w h) (newCanvas w h) false [] (-1) t rect)
  = mkEngine
      (mkCanvas (mkImage w h (whiteRows w h))
         (mkCtx (mkDrawState white black 1%Q CapRound JoinRound 1%Q) [] []))
      (set_lineJoin JoinRound (set_lineCap CapRound (newCanvas w h)))
      false [mkImage w h (whiteRows w h)] 0 t rect.
Proof.
  unfold initEffect.
  cbn [mainCanvas tempCanvas withMain withTemp historyRef historyStep isDrawing tool
       containerRect length Nat.eqb].
  rewrite painted_new. rewrite saveToHistory_first by reflexivity.
  reflexivity.
Qed.

Lemma initEffect_initial (t : DrawingTool) (rect : Size) :
  initEffect (initial t rect)
  = mkEngine
      (mkCanvas (mkImage 300 150 (whiteRows 300 150))
         (mkCtx (mkDrawState white black 1%Q CapRound JoinRound 1%Q) [] []))
      (set_lineJoin JoinRound (set_lineCap CapRound defaultCanvas))
      false [mkImage 300 150 (whiteRows 300 150)] 0 t (px rect).
Proof. unfold initial, defaultCanvas. apply initEffect_fresh. Qed.

Lemma solid_white (w h : nat) : solid (mkImage w h (whiteRows w h)).
Proof. split; simpl; [apply shaped_repeat|now apply opaque_repeat]. Qed.

Lemma Inv_initEffect (t : DrawingTool) (rect : Size) : Inv (initEffect (initial t rect)).
Proof.
  rewrite initEffect_initial. unfold Inv. cbn [historyStep historyRef mainCanvas].
  refine (conj _ (conj _ (conj _ (conj _ _)))).
  - unfold len; simpl; lia.
  - unfold len, HISTORY_CAP; simpl; lia.
  - reflexivity.
  - apply solid_white.
  - constructor; [apply solid_white|constructor].
Qed.

Lemma Inv_mount (t : DrawingTool) (rect : Size) : Inv (mount t rect).
Proof.
  unfold mount.
  destruct (toolEffect_frame (handleResize (initEffect (initial t rect))))
    as (Hm & Hh & Hs & _).
  apply (Inv_same _ Hm Hh Hs). apply (Inv_handleResize L), Inv_initEffect.
Qed.

Lemma Inv_reachable (t : DrawingTool) (rect : Size) (evs : list Event) :
  Inv (run evs (mount t rect)).
Proof. apply (Inv_run L), Inv_mount. Qed.

End MountFacts.

(** ** The reference rasteriser obeys the laws *)

Lemma Qle_bool_false (a b : Q) : (b < a)%Q -> Qle_bool a b = false.
Proof.
  intro H. destruct (Qle_bool a b) eqn:E; [|reflexivity].
  apply Qle_bool_iff in E. lra.
Qed.

Lemma Qlt_bool_false (a b : Q) : (b <= a)%Q -> Qlt_bool a b = false.
Proof.
  intro H. unfold Qlt_bool. apply Qle_bool_iff in H. now rewrite H.
Qed.

Lemma refRaster_laws : RasterLaws refRaster.
Proof.
  constructor; simpl.
  - intros s d Hs. unfold refBlend. rewrite Hs. reflexivity.
  - intros a d. reflexivity.
  - intros a s d Hd. unfold refBlend.
    destruct (alpha s =? 0); [assumption|].
    destruct (Qeq_bool a 1 && (alpha s =? 255)) eqn:E.
    + apply andb_true_iff in E as [_ E]. now apply Z.eqb_eq in E.
    + simpl. now rewrite Hd.
  - intros src r x y H. unfold refSample, QofNat.
    destruct ((iwidth src =? 0)%nat || (iheight src =? 0)%nat); [reflexivity|].
    destruct H as [H|[H|[H|H]]].
    + rewrite Qle_bool_false by lra. reflexivity.
    + rewrite (@Qlt_bool_false (inject_Z (Z.of_nat x) + (1 # 2))%Q (rx r + rw r)%Q) by lra.
      now rewrite andb_false_r.
    + rewrite (@Qle_bool_false (ry r) (inject_Z (Z.of_nat y) + (1 # 2))%Q) by lra.
      now rewrite andb_false_r.
    + rewrite (@Qlt_bool_false (inject_Z (Z.of_nat y) + (1 # 2))%Q (ry r + rh r)%Q) by lra.
      now rewrite andb_false_r.
  - intros src r x y H. unfold refSample.
    replace ((iwidth src =? 0)%nat || (iheight src =? 0)%nat) with true; [reflexivity|].
    symmetry. apply orb_true_iff. destruct H as [H|H]; [left|right]; now apply Nat.eqb_eq.
Qed.

(** ** Strokes and traces *)

Section TraceFacts.
Context {R : Raster} (L : RasterLaws R).

Lemma run_app (a b : list Event) (e : Engine) : run (a ++ b) e = run b (run a e).
Proof. revert e; induction a as [|ev a IH]; intro e; simpl; [reflexivity|apply IH]. Qed.

Lemma saveToHistory_withTemp (e : Engine) (c : Canvas) :
  withTemp (saveToHistory e) c = saveToHistory (withTemp e c).
Proof.
  unfold saveToHistory. cbn [historyStep historyRef mainCanvas withTemp].
  destruct (len _ >? HISTORY_CAP); reflexivity.
Qed.

(** Pointer moves leave everything but the scratch canvas alone. *)
Lemma moves_frame (ms : list Point) (e : Engine) :
  let e' := run (map PointerMove ms) e in
  mainCanvas e' = mainCanvas e /\ historyRef e' = historyRef e
  /\ historyStep e' = historyStep e /\ isDrawing e' = isDrawing e.
Proof.
  revert e; induction ms as [|p ms IH]; intro e; simpl; [repeat split|].
  destruct (IH (draw p e)) as (H1 & H2 & H3 & H4).
  rewrite H1, H2, H3, H4. unfold draw. destruct (negb (isDrawing e)); repeat split.
Qed.

(** Every recording event is a [saveToHistory] on the old history. *)
Lemma recording_step (ev : Event) (e : Engine) :
  recording ev e = true ->
  exists e0, historyRef e0 = historyRef e /\ historyStep e0 = historyStep e
    /\ historyRef (step ev e) = historyRef (saveToHistory e0)
    /\ historyStep (step ev e) = historyStep (saveToHistory e0)
    /\ mainCanvas (step ev e) = mainCanvas e0.
Proof.
  destruct ev; simpl; try discriminate.
  - intro Hd. unfold stopDrawing. rewrite Hd. cbn [negb].
    eexists (withMain (withDrawing e false) _). cbn [withTemp historyRef historyStep mainCanvas].
    destruct (saveToHistory_frame
      (withMain (withDrawing e false)
         (restore (drawImage (bitmap (tempCanvas (withDrawing e false)))
           (set_globalAlpha (compositeAlpha (tool (withDrawing e false)))
             (save (mainCanvas (withDrawing e false)))))))) as (Hm & _).
    rewrite Hm. repeat split.
  - intros _. unfold clearCanvas.
    eexists (withMain e _). cbn [withTemp historyRef historyStep mainCanvas].
    destruct (saveToHistory_frame
      (withMain e (restore (fillRect (set_fillStyle white
         (set_globalAlpha 1%Q (save (mainCanvas e)))))))) as (Hm & _).
    rewrite Hm. repeat split.
  - intros _. unfold onload.
    eexists (withMain e _).
    destruct (saveToHistory_frame
      (withMain e (restore (drawImageScaled img
         (aspectFit (iwidth img) (iheight img) (cwidth (mainCanvas e)) (cheight (mainCanvas e)))
         (fillRect (set_fillStyle white (save (mainCanvas e)))))))) as (Hm & _).
    rewrite Hm. repeat split.
Qed.

(** After a recording event the cursor is the last index, at least 1,
    the entry under it is the new committed surface and the entry below
    it is the one the cursor was on. *)
Lemma recording_cursor (ev : Event) (e : Engine) :
  Inv e -> recording ev e = true ->
  let e' := step ev e in
  historyStep e' = len (historyRef e') - 1
  /\ 1 <= historyStep e'
  /\ index (historyRef e') (historyStep e') = Some (bitmap (mainCanvas e'))
  /\ index (historyRef e') (historyStep e' - 1) = index (historyRef e) (historyStep e).
Proof.
  intros HI Hr e'. destruct (recording_step ev e Hr) as (e0 & Hh & Hs & Hh' & Hs' & Hm).
  destruct HI as (Hb & Hc & _).
  assert (Hb0 : 0 <= historyStep e0 < len (historyRef e0)) by (rewrite Hh, Hs; exact Hb).
  assert (Hc0 : len (historyRef e0) <= HISTORY_CAP) by (rewrite Hh; exact Hc).
  destruct (saveToHistory_cursor e0 Hb0 Hc0) as (H1 & H2 & _ & H4 & H5).
  unfold e'. rewrite Hh', Hs', Hm, <- Hh, <- Hs, <- (getImageData_bitmap (mainCanvas e0)).
  auto.
Qed.

(** A complete stroke is pointer-down, moves, and one recording pointer-up. *)
Lemma stroke_run (s : Point * list Point) (e : Engine) :
  exists e1, isDrawing e1 = true /\ mainCanvas e1 = mainCanvas e
    /\ historyRef e1 = historyRef e /\ historyStep e1 = historyStep e
    /\ run (strokeEvents s) e = step PointerUp e1.
Proof.
  destruct s as [p ms]. unfold strokeEvents. cbn [fst snd run].
  exists (run (map PointerMove ms) (step (PointerDown p) e)).
  destruct (moves_frame ms (step (PointerDown p) e)) as (H1 & H2 & H3 & H4).
  rewrite run_app. cbn [run]. rewrite H1, H2, H3, H4. repeat split.
Qed.

Lemma stroke_cursor (s : Point * list Point) (e : Engine) :
  Inv e ->
  let e' := run (strokeEvents s) e in
  Inv e' /\ historyStep e' = len (historyRef e') - 1
  /\ len (historyRef e') = Z.min (historyStep e + 2) HISTORY_CAP.
Proof.
  intros HI e'. destruct (stroke_run s e) as (e1 & Hd & Hm & Hh & Hs & Hrun).
  assert (HI1 : Inv e1) by (apply (Inv_same (e := e)); assumption).
  unfold e'. rewrite Hrun. split; [now apply (Inv_step L)|].
  destruct (recording_cursor PointerUp HI1 Hd) as (H1 & _).
  split; [exact H1|].
  destruct (recording_step PointerUp e1 Hd) as (e0 & Hh0 & Hs0 & Hh' & _).
  destruct HI1 as (Hb & Hc & _).
  assert (Hb0 : 0 <= historyStep e0 < len (historyRef e0)) by (rewrite Hh0, Hs0; exact Hb).
  assert (Hc0 : len (historyRef e0) <= HISTORY_CAP) by (rewrite Hh0; exact Hc).
  destruct (saveToHistory_history e0 Hb0 Hc0) as [Hlo Hhi].
  assert (Hf : len (firstn (Z.to_nat (historyStep e0 + 1)) (historyRef e0))
               = historyStep e0 + 1).
  { unfold len in *. rewrite length_firstn. lia. }
  rewrite Hh', <- Hs, <- Hs0. unfold HISTORY_CAP in *.
  destruct (Z_le_gt_dec (historyStep e0 + 2) 50) as [Hle|Hgt].
  - destruct (Hlo Hle) as [E _]. rewrite E, len_app, Hf. unfold len; simpl. lia.
  - assert (Hgt' : 50 < historyStep e0 + 2) by lia.
    destruct (Hhi Hgt') as [E _]. rewrite E.
    assert (Hl2 : len (firstn (Z.to_nat (historyStep e0 + 1)) (historyRef e0)
                       ++ [getImageData (mainCanvas e0)]) = historyStep e0 + 2).
    { rewrite len_app, Hf. unfold len; simpl. lia. }
    destruct (firstn _ _ ++ _) as [|a l]; unfold len in *; simpl in *; lia.
Qed.

End TraceFacts.

(** * The claims *)

Section Claims.
Context {R : Raster} (L : RasterLaws R).

(** C10: [exportImage()] returns the PNG encoding of the committed surface
    and nothing else; the engine state after the call is the state before
    it, so the committed pixels, the scratch pixels, the history entries
    and the cursor are unchanged and no entry is recorded. *)
Theorem exportImage_pure (e : Engine) :
  fst (exportImage e) = encodePNG (bitmap (mainCanvas e))
  /\ snd (exportImage e) = e
  /\ bitmap (mainCanvas (step ExportImage e)) = bitmap (mainCanvas e)
  /\ bitmap (tempCanvas (step ExportImage e)) = bitmap (tempCanvas e)
  /\ historyRef (step ExportImage e) = historyRef e
  /\ historyStep (step ExportImage e) = historyStep e.
Proof. repeat split. Qed.

Lemma scratch_reset (t : Canvas) :
  beginPath (clearRect t)
  = mkCanvas (cleared (bitmap t)) (mkCtx (style t) [] (saved (ctx t))).
Proof. destruct t as [[w h rows] [s p sv]]. reflexivity. Qed.

Lemma stopDrawing_open (e : Engine) :
  isDrawing e = true ->
  stopDrawing e
  = saveToHistory
      (mkEngine
         (mkCanvas (composite
            (if Qle_bool 0 (compositeAlpha (tool e)) && Qle_bool (compositeAlpha (tool e)) 1
             then compositeAlpha (tool e) else globalAlpha (style (mainCanvas e)))
            (bitmap (tempCanvas e)) (bitmap (mainCanvas e))) (ctx (mainCanvas e)))
         (mkCanvas (cleared (bitmap (tempCanvas e)))
            (mkCtx (style (tempCanvas e)) [] (saved (ctx (tempCanvas e)))))
         false (historyRef e) (historyStep e) (tool e) (containerRect e)).
Proof.
  intro Hd. unfold stopDrawing. rewrite Hd. cbn [negb].
  rewrite saveToHistory_withTemp.
  destruct (saveToHistory_frame
    (withMain (withDrawing e false)
       (restore (drawImage (bitmap (tempCanvas (withDrawing e false)))
         (set_globalAlpha (compositeAlpha (tool (withDrawing e false)))
           (save (mainCanvas (withDrawing e false)))))))) as (_ & Ht & _).
  rewrite Ht. cbn [withMain withDrawing withTemp tempCanvas mainCanvas tool
                   isDrawing historyRef historyStep containerRect].
  now rewrite composite_main, scratch_reset.
Qed.


Lemma handleResize_history (e : Engine) :
  historyRef (handleResize e) = historyRef e
  /\ historyStep (handleResize e) = historyStep e.
Proof.
  unfold handleResize. destruct (containerRect e) as [w h].
  destruct ((cwidth (mainCanvas e) =? w)%nat && (cheight (mainCanvas e) =? h)%nat);
    split; reflexivity.
Qed.

Lemma mount_history (t : DrawingTool) (rect : Size) :
  historyStep (mount t rect) = 0 /\ len (historyRef (mount t rect)) = 1.
Proof.
  unfold mount.
  destruct (toolEffect_frame (handleResize (initEffect (initial t rect))))
    as (_ & Hh & Hs & _).
  destruct (handleResize_history (initEffect (initial t rect))) as [Hh' Hs'].
  rewrite Hh, Hs, Hh', Hs', (initEffect_initial L).
  cbn [historyStep historyRef]. unfold len. cbn [length]. split; reflexivity.
Qed.

Lemma strokes_history (strokes : list (Point * list Point)) (e : Engine) :
  Inv e -> historyStep e = len (historyRef e) - 1 ->
  let e' := run (concat (map strokeEvents strokes)) e in
  Inv e' /\ historyStep e' = len (historyRef e') - 1
  /\ len (historyRef e') = Z.min (len (historyRef e) + len strokes) HISTORY_CAP.
Proof.
  revert e; induction strokes as [|s strokes IH]; intros e HI Hend; cbn [map concat].
  - cbn [run]. split; [assumption|]. split; [assumption|].
    destruct HI as (_ & Hc & _). unfold len in *; simpl. unfold HISTORY_CAP in *; lia.
  - cbv zeta. rewrite run_app.
    destruct (stroke_cursor L s HI) as (HI1 & Hend1 & Hlen1).
    destruct (IH _ HI1 Hend1) as (HI2 & Hend2 & Hlen2).
    split; [assumption|]. split; [assumption|].
    rewrite Hlen2, Hlen1, Hend.
    assert (0 <= len strokes) by (unfold len; lia).
    replace (len (s :: strokes)) with (len strokes + 1) by (unfold len; simpl; lia).
    unfold HISTORY_CAP. lia.
Qed.

(** C3: the history never holds more than 50 entries; a record that would
    make it longer evicts the oldest entry and moves the cursor down with
    it, so the cursor stays on the entry just appended; after N completed
    strokes on a freshly mounted board the cursor is N with N+1 entries
    while N+1 <= 50, and 49 with 50 entries from then on. *)
Theorem history_bounded (t : DrawingTool) (rect : Size) (evs : list Event)
    (ev : Event) (strokes : list (Point * list Point)) :
  let e := run evs (mount t rect) in
  let h2 := firstn (Z.to_nat (historyStep e + 1)) (historyRef e)
            ++ [bitmap (mainCanvas (step ev e))] in
  let eN := run (concat (map strokeEvents strokes)) (mount t rect) in
  let N := len strokes in
  len (historyRef e) <= 50
  /\ (recording ev e = true ->
      historyRef (step ev e) = (if len h2 >? 50 then tl h2 else h2)
      /\ historyStep (step ev e) = (if len h2 >? 50 then len h2 - 1 - 1 else len h2 - 1)
      /\ historyStep (step ev e) = len (historyRef (step ev e)) - 1)
  /\ historyStep eN = Z.min N 49
  /\ len (historyRef eN) = Z.min (N + 1) 50.
Proof.
  intros e h2 eN N.
  pose proof (Inv_reachable L t rect evs) as HI. fold e in HI.
  split; [apply HI|]. split.
  - intro Hr. destruct (recording_step ev e Hr) as (e0 & Hh & Hs & Hh' & Hs' & Hm).
    destruct (recording_cursor ev HI Hr) as (Hend & _).
    destruct HI as (Hb & Hc & _).
    assert (Hb0 : 0 <= historyStep e0 < len (historyRef e0)) by (rewrite Hh, Hs; exact Hb).
    assert (Hc0 : len (historyRef e0) <= HISTORY_CAP) by (rewrite Hh; exact Hc).
    destruct (saveToHistory_history e0 Hb0 Hc0) as [Hlo Hhi].
    rewrite getImageData_bitmap, <- Hm, Hh, Hs in Hlo, Hhi. fold h2 in Hlo, Hhi.
    assert (Hl2 : len h2 = historyStep e + 2).
    { unfold h2. rewrite len_app. unfold len in *. rewrite length_firstn. simpl. lia. }
    split; [|split; [|exact Hend]]; rewrite ?Hh', ?Hs', Hl2; unfold HISTORY_CAP in *.
    + destruct (historyStep e + 2 >? 50) eqn:E.
      * apply Z.gtb_lt in E. now apply Hhi.
      * apply Hlo. pose proof (Zgt_cases (historyStep e + 2) 50) as G.
        rewrite E in G. exact G.
    + destruct (historyStep e + 2 >? 50) eqn:E.
      * apply Z.gtb_lt in E. destruct (Hhi E) as [_ E2]. lia.
      * pose proof (Zgt_cases (historyStep e + 2) 50) as G. rewrite E in G.
        destruct (Hlo G) as [_ E2]. lia.
  - destruct (mount_history t rect) as [Hs0 Hl0].
    assert (Hend : historyStep (mount t rect) = len (historyRef (mount t rect)) - 1) by lia.
    destruct (strokes_history strokes (Inv_mount L t rect) Hend) as (_ & Hend' & Hlen').
    fold eN in Hend', Hlen'. rewrite Hl0 in Hlen'. fold N in Hlen'.
    unfold HISTORY_CAP in *. split; lia.
Qed.

(** C2: a record made while the cursor is below the last index (a stroke,
    clear or image load after an undo) keeps the entries up to the cursor,
    drops the rest, appends the new snapshot and puts the cursor on it;
    hence after an undo and a new completed stroke, redo changes nothing. *)
Theorem record_cuts_redo_branch (t : DrawingTool) (rect : Size) (evs : list Event)
    (ev : Event) (s : Point * list Point) :
  let e := run evs (mount t rect) in
  let e' := run (strokeEvents s) (step Undo e) in
  (recording ev e = true -> historyStep e < len (historyRef e) - 1 ->
     historyRef (step ev e)
     = firstn (Z.to_nat (historyStep e + 1)) (historyRef e)
       ++ [bitmap (mainCanvas (step ev e))]
     /\ historyStep (step ev e) = len (historyRef (step ev e)) - 1)
  /\ step Redo e' = e'.
Proof.
  intros e e'.
  pose proof (Inv_reachable L t rect evs) as HI. fold e in HI. split.
  - intros Hr Hlt. destruct (recording_step ev e Hr) as (e0 & Hh & Hs & Hh' & Hs' & Hm).
    destruct (recording_cursor ev HI Hr) as (Hend & _).
    split; [|exact Hend].
    destruct HI as (Hb & Hc & _).
    assert (Hb0 : 0 <= historyStep e0 < len (historyRef e0)) by (rewrite Hh, Hs; exact Hb).
    assert (Hc0 : len (historyRef e0) <= HISTORY_CAP) by (rewrite Hh; exact Hc).
    destruct (saveToHistory_history e0 Hb0 Hc0) as [Hlo _].
    rewrite getImageData_bitmap, <- Hm, Hh, Hs in Hlo.
    rewrite Hh'. apply Hlo. unfold HISTORY_CAP in *. lia.
  - assert (HI' : Inv (step Undo e)) by now apply (Inv_step L).
    destruct (stroke_cursor L s HI') as (_ & Hend & _). fold e' in Hend.
    cbn [step]. unfold redo.
    replace (historyStep e' <? len (historyRef e') - 1) with false; [reflexivity|].
    symmetry. apply Z.ltb_ge. lia.
Qed.

Lemma restored_dims (d : ImageData) (w h : nat) :
  iwidth (restored d w h) = w /\ iheight (restored d w h) = h.
Proof.
  unfold restored. destruct ((iwidth d =? w)%nat && (iheight d =? h)%nat) eqn:E.
  - apply andb_true_iff in E as [E1 E2]. now apply Nat.eqb_eq in E1, E2.
  - split; reflexivity.
Qed.

Lemma restored_self (d : ImageData) : restored d (iwidth d) (iheight d) = d.
Proof. unfold restored. now rewrite !Nat.eqb_refl. Qed.

Lemma restored_mismatch (d : ImageData) (w h : nat) :
  iwidth d <> w \/ iheight d <> h -> restored d w h = stretchFill d w h.
Proof.
  intro H. unfold restored.
  destruct ((iwidth d =? w)%nat && (iheight d =? h)%nat) eqn:E; [|reflexivity].
  apply andb_true_iff in E as [E1 E2]. apply Nat.eqb_eq in E1, E2. tauto.
Qed.

Lemma undo_eq (e : Engine) :
  Inv e -> 0 < historyStep e ->
  exists d, index (historyRef e) (historyStep e - 1) = Some d
    /\ undo e = withMain (withHistory e (historyRef e) (historyStep e - 1))
                  (mkCanvas (restored d (cwidth (mainCanvas e)) (cheight (mainCanvas e)))
                     (ctx (mainCanvas e))).
Proof.
  intros HI Hpos. pose proof HI as (Hb & Hc & Ha & Hm & Hh).
  assert (Hr : 0 <= historyStep e - 1 < len (historyRef e)) by lia.
  destruct (index_Some _ Hr) as [d Hd]. exists d. split; [exact Hd|].
  unfold undo. replace (historyStep e >? 0) with true by (symmetry; apply Z.gtb_lt; lia).
  cbn [withHistory historyRef historyStep]. rewrite Hd.
  rewrite (applyHistoryItem_main L); try assumption; [reflexivity|].
  rewrite Forall_forall in Hh. apply Hh. eapply index_In; eassumption.
Qed.

Lemma redo_eq (e : Engine) :
  Inv e -> historyStep e < len (historyRef e) - 1 ->
  exists d, index (historyRef e) (historyStep e + 1) = Some d
    /\ redo e = withMain (withHistory e (historyRef e) (historyStep e + 1))
                  (mkCanvas (restored d (cwidth (mainCanvas e)) (cheight (mainCanvas e)))
                     (ctx (mainCanvas e))).
Proof.
  intros HI Hlt. pose proof HI as (Hb & Hc & Ha & Hm & Hh).
  assert (Hr : 0 <= historyStep e + 1 < len (historyRef e)) by lia.
  destruct (index_Some _ Hr) as [d Hd]. exists d. split; [exact Hd|].
  unfold redo.
  replace (historyStep e <? len (historyRef e) - 1) with true by (symmetry; apply Z.ltb_lt; lia).
  cbn [withHistory historyRef historyStep]. rewrite Hd.
  rewrite (applyHistoryItem_main L); try assumption; [reflexivity|].
  rewrite Forall_forall in Hh. apply Hh. eapply index_In; eassumption.
Qed.

(** C7: on a mounted board undo and redo always find their entry and
    restore it; when the entry's dimensions differ from the surface's, the
    committed surface becomes the background colour with the entry drawn
    scaled to the full current bounds. *)
Theorem restore_rescales (t : DrawingTool) (rect : Size) (evs : list Event) :
  let e := run evs (mount t rect) in
  let w := cwidth (mainCanvas e) in
  let h := cheight (mainCanvas e) in
  (0 < historyStep e ->
     exists d, index (historyRef e) (historyStep e - 1) = Some d
       /\ historyStep (undo e) = historyStep e - 1
       /\ (iwidth d <> w \/ iheight d <> h ->
           bitmap (mainCanvas (undo e)) = stretchFill d w h))
  /\ (historyStep e < len (historyRef e) - 1 ->
     exists d, index (historyRef e) (historyStep e + 1) = Some d
       /\ historyStep (redo e) = historyStep e + 1
       /\ (iwidth d <> w \/ iheight d <> h ->
           bitmap (mainCanvas (redo e)) = stretchFill d w h))
  /\ (forall d, solid d -> iwidth d <> w \/ iheight d <> h ->
     bitmap (mainCanvas (applyHistoryItem d e)) = stretchFill d w h).
Proof.
  intros e w h. pose proof (Inv_reachable L t rect evs) as HI. fold e in HI.
  split; [|split]; [intro Hc|intro Hc|].
  3:{ intros d Hd Hne. destruct HI as (_ & _ & Ha & Hm & _).
      rewrite (applyHistoryItem_main L); try assumption.
      cbn [withMain mainCanvas bitmap]. now apply restored_mismatch. }
  - destruct (undo_eq HI Hc) as (d & Hd & Hu). exists d.
    rewrite Hu. cbn [withMain withHistory historyStep mainCanvas bitmap].
    repeat split; try assumption. apply restored_mismatch.
  - destruct (redo_eq HI Hc) as (d & Hd & Hu). exists d.
    rewrite Hu. cbn [withMain withHistory historyStep mainCanvas bitmap].
    repeat split; try assumption. apply restored_mismatch.
Qed.


Lemma clearCanvas_eq (e : Engine) :
  solid (bitmap (mainCanvas e)) ->
  clearCanvas e
  = saveToHistory
      (mkEngine
         (mkCanvas (mkImage (cwidth (mainCanvas e)) (cheight (mainCanvas e))
                      (whiteRows (cwidth (mainCanvas e)) (cheight (mainCanvas e))))
            (ctx (mainCanvas e)))
         (clearRect (tempCanvas e)) (isDrawing e) (historyRef e) (historyStep e)
         (tool e) (containerRect e)).
Proof.
  intros [Hs _]. unfold clearCanvas. rewrite saveToHistory_withTemp.
  destruct (saveToHistory_frame
    (withMain e (restore (fillRect (set_fillStyle white
       (set_globalAlpha 1%Q (save (mainCanvas e)))))))) as (_ & Ht & _).
  rewrite Ht, clear_main, (fill_white L Hs). reflexivity.
Qed.

(** Recording events keep the size of the committed surface. *)
Lemma recording_dims (ev : Event) (e : Engine) :
  recording ev e = true ->
  cwidth (mainCanvas (step ev e)) = cwidth (mainCanvas e)
  /\ cheight (mainCanvas (step ev e)) = cheight (mainCanvas e).
Proof.
  destruct ev; simpl; try discriminate.
  - intro Hd. rewrite (stopDrawing_open e Hd).
    match goal with |- context [saveToHistory ?x] =>
      destruct (saveToHistory_frame x) as (Hm & _); rewrite Hm end.
    split; reflexivity.
  - intros _. unfold clearCanvas. cbn [withTemp mainCanvas].
    match goal with |- context [saveToHistory ?x] =>
      destruct (saveToHistory_frame x) as (Hm & _); rewrite Hm end.
    cbn [withMain mainCanvas]. rewrite clear_main. split; reflexivity.
  - intros _. unfold onload.
    match goal with |- context [saveToHistory ?x] =>
      destruct (saveToHistory_frame x) as (Hm & _); rewrite Hm end.
    cbn [withMain mainCanvas]. rewrite paint_main. split; reflexivity.
Qed.

Lemma showsCursor_restored (e : Engine) :
  Inv e -> showsCursor e = true ->
  exists d, index (historyRef e) (historyStep e) = Some d
    /\ restored d (cwidth (mainCanvas e)) (cheight (mainCanvas e)) = bitmap (mainCanvas e).
Proof.
  intros (_ & _ & Ha & Hm & Hh) Hs. unfold showsCursor in Hs.
  destruct (index (historyRef e) (historyStep e)) as [d|] eqn:Hd; [|discriminate].
  exists d. split; [reflexivity|].
  apply image_eqb_eq in Hs. rewrite (applyHistoryItem_main L) in Hs; try assumption.
  rewrite Forall_forall in Hh. apply Hh. eapply index_In; eassumption.
Qed.

(** Undo right after a record brings back what the cursor entry showed. *)
Lemma undo_after_record (ev : Event) (e : Engine) :
  Inv e -> recording ev e = true -> showsCursor e = true ->
  bitmap (mainCanvas (undo (step ev e))) = bitmap (mainCanvas e).
Proof.
  intros HI Hr Hs.
  destruct (showsCursor_restored HI Hs) as (d & Hd & Hres).
  destruct (recording_cursor ev HI Hr) as (_ & Hpos & _ & Hprev).
  destruct (recording_dims ev e Hr) as [Hw Hh].
  assert (HI' : Inv (step ev e)) by now apply (Inv_step L).
  destruct (undo_eq HI') as (d' & Hd' & Hu); [lia|].
  rewrite Hu. cbn [withMain mainCanvas bitmap].
  rewrite Hprev, Hd in Hd'. injection Hd' as <-.
  now rewrite Hw, Hh.
Qed.

(** Redo right after that undo brings back the recorded surface. *)
Lemma redo_after_undo (ev : Event) (e : Engine) :
  Inv e -> recording ev e = true ->
  bitmap (mainCanvas (redo (undo (step ev e)))) = bitmap (mainCanvas (step ev e)).
Proof.
  intros HI Hr.
  destruct (recording_cursor ev HI Hr) as (Hend & Hpos & Hcur & _).
  assert (HI' : Inv (step ev e)) by now apply (Inv_step L).
  destruct (undo_eq HI') as (d' & Hd' & Hu); [lia|].
  assert (HI2 : Inv (undo (step ev e))) by now apply (Inv_undo L).
  destruct (redo_eq HI2) as (d2 & Hd2 & Hre).
  { rewrite Hu. cbn [withMain withHistory historyStep historyRef]. lia. }
  rewrite Hre. cbn [withMain mainCanvas bitmap].
  rewrite Hu in Hd2 |- *. cbn [withMain withHistory historyStep historyRef mainCanvas] in Hd2 |- *.
  replace (historyStep (step ev e) - 1 + 1) with (historyStep (step ev e)) in Hd2 by lia.
  rewrite Hcur in Hd2. injection Hd2 as <-.
  unfold cwidth, cheight. cbn [bitmap].
  destruct (restored_dims d' (iwidth (bitmap (mainCanvas (step ev e))))
              (iheight (bitmap (mainCanvas (step ev e))))) as [-> ->].
  apply restored_self.
Qed.

(** C9 (amended): [clearCanvas()] makes every pixel of the committed
    surface the background colour, makes the scratch surface transparent
    and records the cleared surface under the cursor; a following [undo()]
    brings back the pre-clear pixels whenever the committed surface was
    showing the entry under the cursor before the clear. *)
Theorem clearCanvas_resets (t : DrawingTool) (rect : Size) (evs : list Event) :
  let e := run evs (mount t rect) in
  let e' := clearCanvas e in
  allPixels white (bitmap (mainCanvas e'))
  /\ cwidth (mainCanvas e') = cwidth (mainCanvas e)
  /\ cheight (mainCanvas e') = cheight (mainCanvas e)
  /\ allPixels transparent (bitmap (tempCanvas e'))
  /\ index (historyRef e') (historyStep e') = Some (bitmap (mainCanvas e'))
  /\ (showsCursor e = true ->
      bitmap (mainCanvas (undo e')) = bitmap (mainCanvas e)).
Proof.
  intros e e'. pose proof (Inv_reachable L t rect evs) as HI. fold e in HI.
  assert (Hm : solid (bitmap (mainCanvas e))) by apply HI.
  assert (Hr : recording ClearCanvas e = true) by reflexivity.
  destruct (recording_cursor ClearCanvas HI Hr) as (_ & _ & Hcur & _).
  destruct (recording_dims ClearCanvas e Hr) as [Hw Hh].
  cbn [step] in Hcur, Hw, Hh. fold e' in Hcur, Hw, Hh.
  assert (Hmain : bitmap (mainCanvas e')
                  = mkImage (cwidth (mainCanvas e)) (cheight (mainCanvas e))
                      (whiteRows (cwidth (mainCanvas e)) (cheight (mainCanvas e)))).
  { unfold e'. rewrite (clearCanvas_eq _ Hm).
    match goal with |- context [saveToHistory ?x] =>
      destruct (saveToHistory_frame x) as (Hf & _); rewrite Hf end.
    reflexivity. }
  assert (Htemp : bitmap (tempCanvas e') = cleared (bitmap (tempCanvas e))).
  { unfold e'. rewrite (clearCanvas_eq _ Hm).
    match goal with |- context [saveToHistory ?x] =>
      destruct (saveToHistory_frame x) as (_ & Hf & _); rewrite Hf end.
    reflexivity. }
  split; [|split; [exact Hw|split; [exact Hh|split; [|split; [exact Hcur|]]]]].
  - rewrite Hmain. unfold allPixels, whiteRows; simpl.
    apply Forall_forall; intros r Hr'. apply repeat_spec in Hr'; subst r.
    apply Forall_forall; intros p Hp. apply repeat_spec in Hp. now subst p.
  - rewrite Htemp. unfold allPixels, cleared; simpl.
    apply Forall_map, Forall_forall; intros r _.
    apply Forall_map, Forall_forall; intros p _. reflexivity.
  - intro Hs. exact (undo_after_record ClearCanvas HI Hr Hs).
Qed.

(** C1 (amended): when an open stroke is finalized on a mounted board
    whose committed surface shows the entry under the cursor, [undo()]
    makes the committed pixels those from just before the stroke was
    composited; in every case a following [redo()] makes them those from
    just after it was composited. *)
Theorem undo_redo_stroke (t : DrawingTool) (rect : Size) (evs : list Event) :
  let e := run evs (mount t rect) in
  isDrawing e = true ->
  (showsCursor e = true ->
   bitmap (mainCanvas (undo (stopDrawing e))) = bitmap (mainCanvas e))
  /\ bitmap (mainCanvas (redo (undo (stopDrawing e)))) = bitmap (mainCanvas (stopDrawing e)).
Proof.
  intros e Hd. pose proof (Inv_reachable L t rect evs) as HI. fold e in HI.
  assert (Hr : recording PointerUp e = true) by exact Hd.
  split.
  - intro Hs. exact (undo_after_record PointerUp HI Hr Hs).
  - exact (redo_after_undo PointerUp HI Hr).
Qed.

Lemma QofNat_pos (n : nat) : (0 < n)%nat -> (0 < QofNat n)%Q.
Proof.
  intro H. unfold QofNat. replace 0%Q with (inject_Z 0) by reflexivity.
  rewrite <- Zlt_Qlt. lia.
Qed.

Lemma Qhalf (x : Q) : (x / 2 == x * (1 # 2))%Q.
Proof. unfold Qdiv. reflexivity. Qed.

Lemma aspectFit_props (iw ih cw ch : nat) :
  (0 < iw)%nat -> (0 < ih)%nat -> (0 < cw)%nat -> (0 < ch)%nat ->
  let r := aspectFit iw ih cw ch in
  (0 <= rx r /\ 0 <= ry r /\ rx r + rw r <= QofNat cw /\ ry r + rh r <= QofNat ch
   /\ rw r * QofNat ih == rh r * QofNat iw
   /\ (rw r == QofNat cw \/ rh r == QofNat ch)
   /\ rx r == (QofNat cw - rw r) / 2 /\ ry r == (QofNat ch - rh r) / 2)%Q.
Proof.
  intros Hiw Hih Hcw Hch.
  pose proof (QofNat_pos Hiw) as A. pose proof (QofNat_pos Hih) as B.
  pose proof (QofNat_pos Hcw) as C. pose proof (QofNat_pos Hch) as D.
  unfold aspectFit.
  set (a := QofNat iw) in *. set (b := QofNat ih) in *.
  set (c := QofNat cw) in *. set (d := QofNat ch) in *.
  assert (Ha : (~ a == 0)%Q) by lra. assert (Hb : (~ b == 0)%Q) by lra.
  assert (Hd : (~ d == 0)%Q) by lra.
  destruct (Qle_bool (a / b) (c / d)) eqn:E; cbn [negb rx ry rw rh].
  - apply Qle_bool_iff in E.
    assert (E' : (a * d <= c * b)%Q).
    { assert (H1 : (a / b * (b * d) <= c / d * (b * d))%Q) by (apply Qmult_le_compat_r; nra).
      assert (H2 : (a / b * (b * d) == a * d)%Q) by (field; assumption).
      assert (H3 : (c / d * (b * d) == c * b)%Q) by (field; assumption).
      rewrite H2, H3 in H1. exact H1. }
    assert (W : (d * (a / b) * b == d * a)%Q) by (field; assumption).
    assert (Wle : (d * (a / b) <= c)%Q) by nra.
    assert (Wpos : (0 <= d * (a / b))%Q) by nra.
    set (dw := (d * (a / b))%Q) in *.
    rewrite !Qhalf. repeat split; lra.
  - assert (E' : (c * b < a * d)%Q).
    { destruct (Qlt_le_dec (c / d)%Q (a / b)%Q) as [Hlt|Hle];
        [|apply Qle_bool_iff in Hle; congruence].
      assert (H1 : (c / d * (b * d) < a / b * (b * d))%Q) by (apply Qmult_lt_compat_r; nra).
      assert (H2 : (a / b * (b * d) == a * d)%Q) by (field; assumption).
      assert (H3 : (c / d * (b * d) == c * b)%Q) by (field; assumption).
      rewrite H2, H3 in H1. exact H1. }
    assert (Hab : (~ a / b == 0)%Q).
    { intro Z0. assert (H : (a == a / b * b)%Q) by (field; assumption). rewrite Z0 in H. lra. }
    assert (W : (c / (a / b) * a == c * b)%Q) by (field; split; assumption).
    assert (Wle : (c / (a / b) <= d)%Q) by nra.
    assert (Wpos : (0 <= c / (a / b))%Q) by nra.
    set (dh := (c / (a / b))%Q) in *.
    rewrite !Qhalf. repeat split; lra.
Qed.

Lemma letterbox_rect :
  let r := aspectFit 200 100 100 100 in
  (rx r == 0 /\ ry r == 25 /\ rw r == 100 /\ rh r == 50)%Q.
Proof. vm_compute. repeat split. Qed.

Lemma pixelAt_painted (f : nat -> nat -> Pixel -> Pixel) (w h x y : nat) :
  (x < w)%nat -> (y < h)%nat ->
  pixelAt (mkImage w h (mapPixels f (whiteRows w h))) x y = f x y white.
Proof.
  intros Hx Hy. unfold pixelAt, mapPixels, whiteRows; cbn [data].
  rewrite (imapFrom_nth _ _ 0 (repeat white w) []) by (now rewrite repeat_length).
  rewrite nth_repeat_lt by assumption. cbn [Nat.add].
  rewrite (imapFrom_nth _ _ 0 white transparent) by (now rewrite repeat_length).
  rewrite nth_repeat_lt by assumption. reflexivity.
Qed.

Lemma inject_succ_le (n m : nat) :
  (n < m)%nat -> (inject_Z (Z.of_nat n) + 1 <= inject_Z (Z.of_nat m))%Q.
Proof.
  intro H. replace 1%Q with (inject_Z 1) by reflexivity.
  rewrite <- inject_Z_plus, <- Zle_Qle. lia.
Qed.

(** C8: once the image is decoded, [loadImage] leaves on the committed
    surface the background colour with the image drawn into its aspect-fit
    rectangle, and records that surface under the cursor; a failed decode
    changes nothing.  For positive sizes the rectangle lies inside the
    surface, has the image's aspect ratio, fills one axis and is centred
    on both.  A 200 by 100 image on a 100 by 100 surface gets the rectangle
    (0, 25, 100, 50), and the rows above 25 and from 75 on stay white. *)
Theorem loadImage_aspect_fit (t : DrawingTool) (rect : Size) (evs : list Event)
    (img : ImageData) (iw ih cw ch : nat) :
  let e := run evs (mount t rect) in
  let e' := loadImage (Some img) e in
  let r := aspectFit iw ih cw ch in
  let r0 := aspectFit 200 100 100 100 in
  bitmap (mainCanvas e') = fitted img (cwidth (mainCanvas e)) (cheight (mainCanvas e))
  /\ index (historyRef e') (historyStep e') = Some (bitmap (mainCanvas e'))
  /\ loadImage None e = e
  /\ ((0 < iw)%nat -> (0 < ih)%nat -> (0 < cw)%nat -> (0 < ch)%nat ->
      (0 <= rx r /\ 0 <= ry r /\ rx r + rw r <= QofNat cw /\ ry r + rh r <= QofNat ch
       /\ rw r * QofNat ih == rh r * QofNat iw
       /\ (rw r == QofNat cw \/ rh r == QofNat ch)
       /\ rx r == (QofNat cw - rw r) / 2 /\ ry r == (QofNat ch - rh r) / 2)%Q)
  /\ (rx r0 == 0 /\ ry r0 == 25 /\ rw r0 == 100 /\ rh r0 == 50)%Q
  /\ (iwidth img = 200%nat -> iheight img = 100%nat ->
      cwidth (mainCanvas e) = 100%nat -> cheight (mainCanvas e) = 100%nat ->
      forall x y, (x < 100)%nat -> (y < 25 \/ 75 <= y < 100)%nat ->
        pixelAt (bitmap (mainCanvas e')) x y = white).
Proof.
  intros e e' r r0. pose proof (Inv_reachable L t rect evs) as HI. fold e in HI.
  assert (Hr : recording (ImageLoaded img) e = true) by reflexivity.
  destruct (recording_cursor (ImageLoaded img) HI Hr) as (_ & _ & Hcur & _).
  cbn [step] in Hcur. fold e' in Hcur.
  assert (Hmain : bitmap (mainCanvas e')
                  = fitted img (cwidth (mainCanvas e)) (cheight (mainCanvas e))).
  { unfold e', loadImage. rewrite (onload_main L img HI).
    match goal with |- context [saveToHistory ?x] =>
      destruct (saveToHistory_frame x) as (Hf & _); rewrite Hf end.
    reflexivity. }
  split; [exact Hmain|]. split; [exact Hcur|]. split; [reflexivity|].
  split; [apply aspectFit_props|]. split; [apply letterbox_rect|].
  intros Hiw Hih Hcw Hch x y Hx Hy. rewrite Hmain, Hcw, Hch. unfold fitted.
  rewrite pixelAt_painted by lia. rewrite Hiw, Hih.
  destruct letterbox_rect as (_ & Hry & _ & Hrh).
  rewrite (sample_outside L); [apply (blend_clear L)|].
  unfold outside. right. right. destruct Hy as [Hy|Hy].
  - left. rewrite Hry. apply (inject_succ_le Hy).
  - right. rewrite Hry, Hrh.
    replace (25 + 50)%Q with (inject_Z (Z.of_nat 75)) by reflexivity.
    rewrite <- Zle_Qle. lia.
Qed.

Lemma handleResize_settled (e : Engine) : settled e = true -> handleResize e = e.
Proof.
  unfold settled, handleResize. destruct (containerRect e) as [w h]; cbn [fst snd].
  now intros ->.
Qed.

Lemma lineTo_style (p : Point) (c : Canvas) : style (lineTo p c) = style c.
Proof. unfold lineTo. destruct (path (ctx c)); reflexivity. Qed.

(** While a stroke is open, pointer moves and tool changes keep the
    stroke colour and line width of the scratch context. *)
Lemma midStroke_keeps (ev : Event) (e : Engine) (c : Pixel) (w : Q) :
  midStroke ev = true ->
  isDrawing e = true /\ settled e = true
  /\ strokeStyle (style (tempCanvas e)) = c /\ lineWidth (style (tempCanvas e)) = w ->
  isDrawing (step ev e) = true /\ settled (step ev e) = true
  /\ strokeStyle (style (tempCanvas (step ev e))) = c
  /\ lineWidth (style (tempCanvas (step ev e))) = w
  /\ tool (step ev e) = toolAfter [ev] (tool e).
Proof.
  intros Hm (Hd & Hs & Hc & Hw). destruct ev; try discriminate; cbn [step toolAfter fold_left].
  - unfold draw. rewrite Hd. cbn [negb withTemp isDrawing tempCanvas tool].
    unfold settled in *. cbn [withTemp mainCanvas containerRect].
    unfold stroke, withRows, style in *. cbn [ctx cur].
    fold (style (lineTo p (tempCanvas e))). rewrite lineTo_style.
    unfold style. auto.
  - assert (E : (if shape_eqb (shape t) (shape (tool e)) then withTool e t
                 else handleResize (withTool e t)) = withTool e t).
    { destruct (shape_eqb (shape t) (shape (tool e))); [reflexivity|].
      now apply handleResize_settled. }
    rewrite E. unfold toolEffect. cbn [withTool withTemp isDrawing tempCanvas tool].
    unfold settled in *. cbn [withTemp mainCanvas containerRect].
    unfold set_lineJoin, set_lineCap, withState, style in *. cbn [ctx cur strokeStyle lineWidth].
    auto.
Qed.

Lemma toolAfter_app (a b : list Event) (t : DrawingTool) :
  toolAfter (a ++ b) t = toolAfter b (toolAfter a t).
Proof. unfold toolAfter. apply fold_left_app. Qed.

Lemma midStrokes_keep (mids : list Event) (e : Engine) (c : Pixel) (w : Q) :
  forallb midStroke mids = true ->
  isDrawing e = true /\ settled e = true
  /\ strokeStyle (style (tempCanvas e)) = c /\ lineWidth (style (tempCanvas e)) = w ->
  isDrawing (run mids e) = true
  /\ strokeStyle (style (tempCanvas (run mids e))) = c
  /\ lineWidth (style (tempCanvas (run mids e))) = w
  /\ tool (run mids e) = toolAfter mids (tool e).
Proof.
  revert e; induction mids as [|ev mids IH]; intros e Hm H; cbn [run].
  - destruct H as (Hd & _ & Hc & Hw). repeat split; assumption.
  - cbn [forallb] in Hm. apply andb_true_iff in Hm as [Hev Hm].
    destruct (midStroke_keeps ev e Hev H) as (Hd & Hs & Hc & Hw & Ht).
    destruct (IH (step ev e) Hm (conj Hd (conj Hs (conj Hc Hw)))) as (Hd' & Hc' & Hw' & Ht').
    repeat split; try assumption.
    rewrite Ht', Ht. symmetry. apply (toolAfter_app [ev] mids).
Qed.

(** C5 (amended): through every sequence of pointer moves and tool
    changes between pointer-down and pointer-up (with no resize pending),
    the scratch context keeps the stroke colour (the background colour for
    the eraser) and the line width of the tool active at pointer-down;
    the composite at pointer-up uses the opacity and mode of the tool of
    the latest render, which is the last tool delivered. *)
Theorem stroke_tool_capture (e0 : Engine) (p : Point) (mids : list Event) :
  let t0 := tool e0 in
  let e2 := run mids (startDrawing p e0) in
  let t2 := toolAfter mids t0 in
  forallb midStroke mids = true -> settled e0 = true -> widthOk t0 = true ->
  (mode t2 = brush -> opacityOk t2 = true) ->
  isDrawing e2 = true
  /\ strokeStyle (style (tempCanvas e2))
     = (if mode_eqb (mode t0) eraser then white else color t0)
  /\ lineWidth (style (tempCanvas e2)) = width t0
  /\ bitmap (mainCanvas (stopDrawing e2))
     = composite (match mode t2 with brush => opacity t2 | eraser => 1%Q end)
         (bitmap (tempCanvas e2)) (bitmap (mainCanvas e2)).
Proof.
  intros t0 e2 t2 Hmids Hset Hw Hop.
  assert (Hstart : isDrawing (startDrawing p e0) = true
                   /\ settled (startDrawing p e0) = true
                   /\ strokeStyle (style (tempCanvas (startDrawing p e0)))
                      = (if mode_eqb (mode t0) eraser then white else color t0)
                   /\ lineWidth (style (tempCanvas (startDrawing p e0))) = width t0).
  { unfold startDrawing. cbn [withTemp withDrawing isDrawing tempCanvas].
    split; [reflexivity|]. split; [exact Hset|].
    unfold stroke, withRows, style. cbn [ctx cur].
    match goal with |- context [lineTo ?q ?c] =>
      fold (style (lineTo q c)); rewrite (lineTo_style q c) end.
    unfold set_lineWidth. unfold widthOk in Hw. fold t0. rewrite Hw.
    split; reflexivity. }
  destruct (midStrokes_keep mids _ Hmids Hstart) as (Hd & Hc & Hlw & Ht).
  fold e2 in Hd, Hc, Hlw, Ht.
  assert (Ht2 : tool e2 = t2) by (rewrite Ht; reflexivity).
  split; [exact Hd|]. split; [exact Hc|]. split; [exact Hlw|].
  rewrite (stopDrawing_open e2 Hd).
  match goal with |- context [saveToHistory ?x] =>
    destruct (saveToHistory_frame x) as (Hf & _); rewrite Hf end.
  cbn [mainCanvas bitmap]. rewrite Ht2.
  unfold compositeAlpha, opacityOk in *. destruct (mode t2); cbn [mode_eqb] in *.
  - now rewrite Hop.
  - reflexivity.
Qed.

Lemma list_eqb_refl {A : Type} (eqb : A -> A -> bool) (l : list A) :
  (forall a, eqb a a = true) -> list_eqb eqb l l = true.
Proof. intro H. induction l as [|a l IH]; simpl; [reflexivity|]. now rewrite H, IH. Qed.

Lemma image_eqb_refl (a : ImageData) : image_eqb a a = true.
Proof.
  unfold image_eqb. rewrite !Nat.eqb_refl. simpl.
  apply list_eqb_refl; intro r. apply list_eqb_refl; intro p.
  unfold pixel_eqb. now rewrite !Z.eqb_refl.
Qed.

(** Every record leaves the committed surface showing the cursor entry. *)
Lemma shows_after_record (ev : Event) (e : Engine) :
  Inv e -> recording ev e = true -> showsCursor (step ev e) = true.
Proof.
  intros HI Hr. destruct (recording_cursor ev HI Hr) as (_ & _ & Hcur & _).
  assert (HI' : Inv (step ev e)) by now apply (Inv_step L).
  unfold showsCursor. rewrite Hcur.
  rewrite (applyHistoryItem_main L); try apply HI'.
  cbn [withMain mainCanvas bitmap]. unfold cwidth, cheight.
  rewrite restored_self. apply image_eqb_refl.
Qed.

(** So does every undo that moves the cursor. *)
Lemma shows_after_undo (e : Engine) :
  Inv e -> 0 < historyStep e -> showsCursor (undo e) = true.
Proof.
  intros HI Hpos. destruct (undo_eq HI Hpos) as (d & Hd & Hu).
  assert (HI' : Inv (undo e)) by now apply (Inv_undo L).
  unfold showsCursor. rewrite Hu in HI' |- *.
  cbn [withMain withHistory historyRef historyStep]. rewrite Hd.
  rewrite (applyHistoryItem_main L); try apply HI'.
  - cbn [withMain withHistory mainCanvas bitmap]. unfold cwidth, cheight. cbn [bitmap].
    destruct (restored_dims d (iwidth (bitmap (mainCanvas e)))
                (iheight (bitmap (mainCanvas e)))) as [-> ->].
    apply image_eqb_refl.
  - destruct HI as (_ & _ & _ & _ & Hh). rewrite Forall_forall in Hh.
    apply Hh. eapply index_In; eassumption.
Qed.

(** And every redo that moves it. *)
Lemma shows_after_redo (e : Engine) :
  Inv e -> historyStep e < len (historyRef e) - 1 -> showsCursor (redo e) = true.
Proof.
  intros HI Hlt. destruct (redo_eq HI Hlt) as (d & Hd & Hu).
  assert (HI' : Inv (redo e)) by now apply (Inv_redo L).
  unfold showsCursor. rewrite Hu in HI' |- *.
  cbn [withMain withHistory historyRef historyStep]. rewrite Hd.
  rewrite (applyHistoryItem_main L); try apply HI'.
  - cbn [withMain withHistory mainCanvas bitmap]. unfold cwidth, cheight. cbn [bitmap].
    destruct (restored_dims d (iwidth (bitmap (mainCanvas e)))
                (iheight (bitmap (mainCanvas e)))) as [-> ->].
    apply image_eqb_refl.
  - destruct HI as (_ & _ & _ & _ & Hh). rewrite Forall_forall in Hh.
    apply Hh. eapply index_In; eassumption.
Qed.

Lemma Sized_same (e e' : Engine) :
  mainCanvas e' = mainCanvas e -> historyRef e' = historyRef e ->
  containerRect e' = containerRect e -> Sized e -> Sized e'.
Proof. unfold Sized. intros -> -> ->. auto. Qed.

Lemma Sized_recording (ev : Event) (e : Engine) :
  recording ev e = true -> containerRect (step ev e) = containerRect e ->
  Sized e -> Sized (step ev e).
Proof.
  intros Hr Hc (Hm & Hh & Hw). rewrite <- Hc in Hw.
  destruct (recording_dims ev e Hr) as [Dw Dh].
  assert (Hm' : nonEmpty (bitmap (mainCanvas (step ev e)))).
  { unfold nonEmpty, cwidth, cheight in *. now rewrite Dw, Dh. }
  destruct (recording_step ev e Hr) as (e0 & Hh0 & _ & Hh' & _ & Hm0).
  split; [exact Hm'|]. split; [|exact Hw].
  rewrite Hh'. apply saveToHistory_Forall; [now rewrite Hh0|].
  now rewrite getImageData_bitmap, <- Hm0.
Qed.

Lemma Sized_restored (e : Engine) (s : Z) (d : ImageData) :
  Sized e ->
  Sized (withMain (withHistory e (historyRef e) s)
           (mkCanvas (restored d (cwidth (mainCanvas e)) (cheight (mainCanvas e)))
              (ctx (mainCanvas e)))).
Proof.
  intros (Hm & Hh & Hw). split; [|split; assumption].
  cbn [withMain mainCanvas bitmap]. unfold nonEmpty.
  destruct (restored_dims d (cwidth (mainCanvas e)) (cheight (mainCanvas e))) as [-> ->].
  exact Hm.
Qed.

Lemma Sized_handleResize (e : Engine) : Inv e -> Sized e -> Sized (handleResize e).
Proof.
  intros HI HS.
  destruct ((cwidth (mainCanvas e) =? fst (containerRect e))%nat
            && (cheight (mainCanvas e) =? snd (containerRect e))%nat) eqn:E.
  - unfold handleResize. destruct (containerRect e) as [w h]; cbn [fst snd] in E.
    now rewrite E.
  - assert (Hm : solid (bitmap (mainCanvas e))) by apply HI.
    rewrite (handleResize_effective L _ Hm E).
    destruct HS as (_ & Hh & Hw & Hh'). split; [|split; [exact Hh|split; assumption]].
    split; assumption.
Qed.

Lemma Sized_step (ev : Event) (e : Engine) : Inv e -> Sized e -> Sized (step ev e).
Proof.
  intros HI HS. destruct ev.
  - eapply Sized_same; [| | |exact HS]; reflexivity.
  - cbn [step]. unfold draw. destruct (negb (isDrawing e)); [assumption|].
    eapply Sized_same; [| | |exact HS]; reflexivity.
  - destruct (isDrawing e) eqn:Hd.
    + apply Sized_recording; [exact Hd| |exact HS].
      cbn [step]. unfold stopDrawing. rewrite Hd. cbn [negb withTemp containerRect].
      match goal with |- context [saveToHistory ?x] =>
        destruct (saveToHistory_frame x) as (_ & _ & _ & _ & Hf); rewrite Hf end.
      reflexivity.
    + cbn [step]. unfold stopDrawing. now rewrite Hd.
  - cbn [step].
    apply (Sized_same (e := if shape_eqb (shape t) (shape (tool e)) then withTool e t
                            else handleResize (withTool e t))); try reflexivity.
    destruct (shape_eqb (shape t) (shape (tool e))).
    + eapply Sized_same; [| | |exact HS]; reflexivity.
    + apply Sized_handleResize.
      * eapply Inv_same; [| | |exact HI]; reflexivity.
      * eapply Sized_same; [| | |exact HS]; reflexivity.
  - destruct HS as (Hm & Hh & _). split; [exact Hm|]. split; [exact Hh|].
    cbn [step withContainer containerRect px fst snd]. split; apply Pos2Nat.is_pos.
  - now apply Sized_handleResize.
  - assumption.
  - apply Sized_recording; [reflexivity| |exact HS].
    cbn [step]. unfold clearCanvas. cbn [withTemp containerRect].
    match goal with |- context [saveToHistory ?x] =>
      destruct (saveToHistory_frame x) as (_ & _ & _ & _ & Hf); rewrite Hf end.
    reflexivity.
  - cbn [step]. destruct (Z_lt_le_dec 0 (historyStep e)) as [Hpos|Hle].
    + destruct (undo_eq HI Hpos) as (d & _ & ->). now apply Sized_restored.
    + unfold undo. replace (historyStep e >? 0) with false; [assumption|].
      symmetry. rewrite Z.gtb_ltb. apply Z.ltb_ge. exact Hle.
  - cbn [step]. destruct (Z_lt_le_dec (historyStep e) (len (historyRef e) - 1)) as [Hlt|Hle].
    + destruct (redo_eq HI Hlt) as (d & _ & ->). now apply Sized_restored.
    + unfold redo. replace (historyStep e <? len (historyRef e) - 1) with false; [assumption|].
      symmetry. apply Z.ltb_ge. exact Hle.
  - apply Sized_recording; [reflexivity| |exact HS].
    cbn [step loadImage]. unfold onload.
    match goal with |- context [saveToHistory ?x] =>
      destruct (saveToHistory_frame x) as (_ & _ & _ & _ & Hf); rewrite Hf end.
    reflexivity.
Qed.

(** Reachable states have no empty surface and no empty snapshot. *)
Lemma Sized_reachable (t : DrawingTool) (rect : Size) (evs : list Event) :
  Sized (run evs (mount t rect)).
Proof.
  assert (H0 : Inv (mount t rect) /\ Sized (mount t rect)).
  { split; [apply (Inv_mount L)|].
    unfold mount.
    destruct (toolEffect_frame (handleResize (initEffect (initial t rect))))
      as (Hm & Hh & _ & Hc).
    apply (Sized_same _ Hm Hh Hc). apply Sized_handleResize.
    - apply (Inv_initEffect L).
    - rewrite (initEffect_initial L). unfold Sized, nonEmpty.
      cbn [mainCanvas bitmap iwidth iheight historyRef containerRect px fst snd].
      split; [split; lia|]. split; [|split; apply Pos2Nat.is_pos].
      constructor; [|constructor]. cbn [iwidth iheight]. split; lia. }
  revert H0. generalize (mount t rect). induction evs as [|ev evs IH]; intros e [HI HS].
  - exact HS.
  - cbn [run]. apply IH. split; [now apply (Inv_step L)|now apply Sized_step].
Qed.

End Claims.

(** * Further properties of the component *)

Section MoreFacts.
Context {R : Raster} (L : RasterLaws R).

Lemma scratchOk_stroke (sh : Shape) (w h : nat) (c : Canvas) :
  scratchOk sh w h c -> scratchOk sh w h (stroke c).
Proof.
  destruct c as [[cw chh rows] [s p sv]].
  unfold scratchOk, stroke, withRows, cwidth, cheight, style; cbn [bitmap ctx cur saved iwidth iheight data].
  intros (Hw & Hh & Hs & Hc & Hj & Hv).
  refine (conj Hw (conj Hh (conj _ (conj Hc (conj Hj Hv))))).
  now apply shaped_mapPixels.
Qed.

Lemma scratchOk_lineTo (sh : Shape) (w h : nat) (p : Point) (c : Canvas) :
  scratchOk sh w h c -> scratchOk sh w h (lineTo p c).
Proof.
  destruct c as [[cw chh rows] [s pth sv]].
  unfold lineTo; cbn [ctx path]. destruct pth; exact (fun H => H).
Qed.

Lemma scratchOk_start (sh : Shape) (w h : nat) (p : Point) (col : Pixel) (lw : Q) (c : Canvas) :
  scratchOk sh w h c ->
  scratchOk sh w h (set_lineWidth lw (set_strokeStyle col (moveTo p (beginPath c)))).
Proof.
  destruct c as [[cw chh rows] [[fs ss l lc lj ga] pth sv]].
  unfold set_lineWidth. destruct (negb (Qle_bool lw 0)); exact (fun H => H).
Qed.

Lemma scratchOk_reset (sh : Shape) (w h : nat) (c : Canvas) :
  scratchOk sh w h c -> scratchOk sh w h (beginPath (clearRect c)).
Proof.
  destruct c as [[cw chh rows] [s p sv]].
  unfold scratchOk, beginPath, clearRect, withRows, withPath, cwidth, cheight, style;
    cbn [bitmap ctx cur saved iwidth iheight data].
  intros (Hw & Hh & Hs & Hc & Hj & Hv).
  refine (conj Hw (conj Hh (conj _ (conj Hc (conj Hj Hv))))).
  now apply shaped_map.
Qed.

Lemma scratchOk_clearRect (sh : Shape) (w h : nat) (c : Canvas) :
  scratchOk sh w h c -> scratchOk sh w h (clearRect c).
Proof.
  destruct c as [[cw chh rows] [s p sv]].
  unfold scratchOk, clearRect, withRows, cwidth, cheight, style;
    cbn [bitmap ctx cur saved iwidth iheight data].
  intros (Hw & Hh & Hs & Hc & Hj & Hv).
  refine (conj Hw (conj Hh (conj _ (conj Hc (conj Hj Hv))))).
  now apply shaped_map.
Qed.

Lemma scratchOk_retool (sh sh' : Shape) (w h : nat) (c : Canvas) :
  scratchOk sh w h c ->
  scratchOk sh' w h (set_lineJoin (joinOf sh') (set_lineCap (capOf sh') c)).
Proof.
  destruct c as [[cw chh rows] [[fs ss l lc lj ga] pth sv]].
  unfold scratchOk, cwidth, cheight, style; cbn.
  intros (Hw & Hh & Hs & _ & _ & Hv).
  exact (conj Hw (conj Hh (conj Hs (conj eq_refl (conj eq_refl Hv))))).
Qed.

Lemma scratchOk_new (sh : Shape) (w h : nat) :
  scratchOk sh w h (set_lineJoin (joinOf sh) (set_lineCap (capOf sh) (newCanvas w h))).
Proof.
  unfold scratchOk, cwidth, cheight, style; cbn.
  exact (conj eq_refl (conj eq_refl (conj (shaped_repeat transparent w h)
           (conj eq_refl (conj eq_refl eq_refl))))).
Qed.

Lemma Tidy_record (e : Engine) (b : ImageData) (t : Canvas) (d : bool) :
  Tidy e -> iwidth b = cwidth (mainCanvas e) -> iheight b = cheight (mainCanvas e) ->
  scratchOk (shape (tool e)) (cwidth (mainCanvas e)) (cheight (mainCanvas e)) t ->
  Tidy (saveToHistory
          (mkEngine (mkCanvas b (ctx (mainCanvas e))) t d (historyRef e) (historyStep e)
             (tool e) (containerRect e))).
Proof.
  intros [Hc _] Hw Hh Ht. unfold Tidy.
  match goal with |- context [saveToHistory ?x] =>
    destruct (saveToHistory_frame x) as (Hm & Htm & _ & Htl & _); rewrite Hm, Htm, Htl end.
  cbn [mainCanvas tempCanvas tool ctx]. unfold cwidth, cheight in *. cbn [bitmap].
  rewrite Hw, Hh. split; assumption.
Qed.

Lemma Tidy_handleResize (e : Engine) : Inv e -> Tidy e -> Tidy (handleResize e).
Proof.
  intros HI HT.
  destruct ((cwidth (mainCanvas e) =? fst (containerRect e))%nat
            && (cheight (mainCanvas e) =? snd (containerRect e))%nat) eqn:E.
  - unfold handleResize. destruct (containerRect e) as [w h]; cbn [fst snd] in E.
    now rewrite E.
  - assert (Hm : solid (bitmap (mainCanvas e))) by apply HI.
    rewrite (handleResize_effective L _ Hm E). split; [reflexivity|].
    cbn [withMain withTemp mainCanvas tempCanvas tool]. apply scratchOk_new.
Qed.

Lemma Tidy_restored (e : Engine) (s : Z) (d : ImageData) :
  Tidy e ->
  Tidy (withMain (withHistory e (historyRef e) s)
          (mkCanvas (restored d (cwidth (mainCanvas e)) (cheight (mainCanvas e)))
             (ctx (mainCanvas e)))).
Proof.
  intros [Hc Ht]. split; [exact Hc|].
  cbn [withMain withHistory mainCanvas tempCanvas tool].
  destruct (restored_dims d (cwidth (mainCanvas e)) (cheight (mainCanvas e))) as [Hw Hh].
  unfold cwidth, cheight in *. cbn [bitmap]. rewrite Hw, Hh. exact Ht.
Qed.

Lemma Tidy_toolEffect (sh : Shape) (e : Engine) :
  ctx (mainCanvas e) = roundCtx ->
  scratchOk sh (cwidth (mainCanvas e)) (cheight (mainCanvas e)) (tempCanvas e) ->
  Tidy (toolEffect e).
Proof.
  intros Hc Ht. split; [exact Hc|]. unfold toolEffect.
  cbn [withTemp mainCanvas tempCanvas tool].
  apply (scratchOk_retool (sh := sh)). exact Ht.
Qed.

Lemma Tidy_step (ev : Event) (e : Engine) : Inv e -> Tidy e -> Tidy (step ev e).
Proof.
  intros HI HT. pose proof HT as [Hc Ht]. destruct ev; cbn [step].
  - split; [exact Hc|]. unfold startDrawing.
    cbn [withTemp withDrawing mainCanvas tempCanvas tool].
    apply scratchOk_stroke, scratchOk_lineTo, scratchOk_start. exact Ht.
  - unfold draw. destruct (negb (isDrawing e)); [assumption|].
    split; [exact Hc|]. cbn [withTemp mainCanvas tempCanvas tool].
    apply scratchOk_stroke, scratchOk_lineTo. exact Ht.
  - destruct (isDrawing e) eqn:Hd.
    + rewrite (stopDrawing_open e Hd).
      apply (Tidy_record (e := e)); try assumption; try reflexivity.
      change (mkCanvas (cleared (bitmap (tempCanvas e)))
                (mkCtx (style (tempCanvas e)) [] (saved (ctx (tempCanvas e)))))
        with (mkCanvas (cleared (bitmap (tempCanvas e)))
                (mkCtx (cur (ctx (tempCanvas e))) [] (saved (ctx (tempCanvas e))))).
      rewrite <- scratch_reset. apply scratchOk_reset. exact Ht.
    + unfold stopDrawing. now rewrite Hd.
  - assert (HT1 : Tidy (toolEffect (withTool e t)))
      by (apply (Tidy_toolEffect (sh := shape (tool e))); assumption).
    destruct (shape_eqb (shape t) (shape (tool e))); [exact HT1|].
    destruct ((cwidth (mainCanvas (withTool e t)) =? fst (containerRect (withTool e t)))%nat
              && (cheight (mainCanvas (withTool e t))
                  =? snd (containerRect (withTool e t)))%nat) eqn:E.
    + unfold handleResize at 1.
      destruct (containerRect (withTool e t)) as [w h]; cbn [fst snd] in E.
      now rewrite E.
    + assert (Hm : solid (bitmap (mainCanvas (withTool e t)))) by apply HI.
      rewrite (handleResize_effective L _ Hm E).
      apply (Tidy_toolEffect (sh := shape t)); [reflexivity|].
      cbn [withMain withTemp mainCanvas tempCanvas tool withTool]. apply scratchOk_new.
  - exact HT.
  - now apply Tidy_handleResize.
  - exact HT.
  - assert (Hm : solid (bitmap (mainCanvas e))) by apply HI.
    rewrite (clearCanvas_eq L _ Hm).
    apply (Tidy_record (e := e)); try assumption; try reflexivity.
    apply scratchOk_clearRect. exact Ht.
  - destruct (Z_lt_le_dec 0 (historyStep e)) as [Hpos|Hle].
    + destruct (undo_eq L HI Hpos) as (d & _ & ->). now apply Tidy_restored.
    + unfold undo. replace (historyStep e >? 0) with false; [assumption|].
      symmetry. rewrite Z.gtb_ltb. apply Z.ltb_ge. exact Hle.
  - destruct (Z_lt_le_dec (historyStep e) (len (historyRef e) - 1)) as [Hlt|Hle].
    + destruct (redo_eq L HI Hlt) as (d & _ & ->). now apply Tidy_restored.
    + unfold redo. replace (historyStep e <? len (historyRef e) - 1) with false; [assumption|].
      symmetry. apply Z.ltb_ge. exact Hle.
  - cbn [loadImage]. rewrite (onload_main L img HI).
    change (withMain e (mkCanvas (fitted img (cwidth (mainCanvas e)) (cheight (mainCanvas e)))
                          (ctx (mainCanvas e))))
      with (mkEngine (mkCanvas (fitted img (cwidth (mainCanvas e)) (cheight (mainCanvas e)))
                        (ctx (mainCanvas e)))
              (tempCanvas e) (isDrawing e) (historyRef e) (historyStep e) (tool e)
              (containerRect e)).
    apply (Tidy_record (e := e)); try assumption; reflexivity.
Qed.

Lemma Tidy_mount (t : DrawingTool) (rect : Size) : Tidy (mount t rect).
Proof.
  unfold mount. set (e0 := initEffect (initial t rect)).
  assert (H0 : ctx (mainCanvas e0) = roundCtx
               /\ scratchOk round (cwidth (mainCanvas e0)) (cheight (mainCanvas e0))
                    (tempCanvas e0)).
  { unfold e0. rewrite (initEffect_initial L). split; [reflexivity|].
    cbn [mainCanvas tempCanvas]. unfold defaultCanvas.
    exact (scratchOk_new round 300 150). }
  destruct H0 as [Hc Ht].
  destruct ((cwidth (mainCanvas e0) =? fst (containerRect e0))%nat
            && (cheight (mainCanvas e0) =? snd (containerRect e0))%nat) eqn:E.
  - assert (Hr : handleResize e0 = e0).
    { unfold handleResize. destruct (containerRect e0) as [w h]; cbn [fst snd] in E.
      now rewrite E. }
    rewrite Hr. now apply (Tidy_toolEffect (sh := round)).
  - assert (Hm : solid (bitmap (mainCanvas e0))) by apply (Inv_initEffect L).
    rewrite (handleResize_effective L _ Hm E).
    apply (Tidy_toolEffect (sh := shape (tool e0))); [reflexivity|].
    cbn [withMain withTemp mainCanvas tempCanvas]. apply scratchOk_new.
Qed.

Lemma Tidy_reachable (t : DrawingTool) (rect : Size) (evs : list Event) :
  Tidy (run evs (mount t rect)).
Proof.
  assert (H0 : Inv (mount t rect) /\ Tidy (mount t rect))
    by (split; [apply (Inv_mount L)|apply Tidy_mount]).
  revert H0. generalize (mount t rect). induction evs as [|ev evs IH]; intros e [HI HT].
  - exact HT.
  - cbn [run]. apply IH. split; [now apply (Inv_step L)|now apply Tidy_step].
Qed.

(** X1: from mount on, the cursor is a valid index of a non-empty
    history: [historyRef.current[historyStep.current]] is always defined. *)
Theorem cursor_always_valid (t : DrawingTool) (rect : Size) (evs : list Event) :
  let e := run evs (mount t rect) in
  0 <= historyStep e < len (historyRef e)
  /\ exists d, index (historyRef e) (historyStep e) = Some d.
Proof.
  intro e. pose proof (Inv_reachable L t rect evs) as (Hb & _). fold e in Hb.
  split; [exact Hb|]. now apply index_Some.
Qed.

(** X2: the committed surface and every history snapshot are always
    complete bitmaps (as many rows and columns as their size says) with
    every pixel fully opaque: nothing the component does leaves
    transparency on the main canvas. *)
Theorem committed_always_opaque (t : DrawingTool) (rect : Size) (evs : list Event) :
  let e := run evs (mount t rect) in
  solid (bitmap (mainCanvas e)) /\ Forall solid (historyRef e).
Proof.
  intro e. pose proof (Inv_reachable L t rect evs) as (_ & _ & _ & Hm & Hh).
  split; assumption.
Qed.

(** X3: every [save()] on the main context is matched by a [restore()]:
    after any sequence of events the main context has an empty save stack,
    an empty path, global alpha 1, white fill and round caps and joins. *)
Theorem main_context_restored (t : DrawingTool) (rect : Size) (evs : list Event) :
  ctx (mainCanvas (run evs (mount t rect))) = roundCtx.
Proof. apply (Tidy_reachable t rect evs). Qed.

(** X4: the scratch canvas always has the size of the main canvas, and its
    bitmap has that many rows and columns. *)
Theorem surfaces_same_size (t : DrawingTool) (rect : Size) (evs : list Event) :
  let e := run evs (mount t rect) in
  cwidth (tempCanvas e) = cwidth (mainCanvas e)
  /\ cheight (tempCanvas e) = cheight (mainCanvas e)
  /\ rowsShaped (cwidth (mainCanvas e)) (cheight (mainCanvas e)) (data (bitmap (tempCanvas e))).
Proof.
  intro e. destruct (Tidy_reachable t rect evs) as (_ & Hw & Hh & Hs & _).
  fold e in Hw, Hh, Hs. auto.
Qed.

(** X5: the line cap and line join of the scratch context always follow
    the shape of the current tool, also after a resize has reset the
    context. *)
Theorem scratch_follows_tool_shape (t : DrawingTool) (rect : Size) (evs : list Event) :
  let e := run evs (mount t rect) in
  lineCap (style (tempCanvas e)) = capOf (shape (tool e))
  /\ lineJoin (style (tempCanvas e)) = joinOf (shape (tool e)).
Proof.
  intro e. destruct (Tidy_reachable t rect evs) as (_ & _ & _ & _ & Hc & Hj & _).
  fold e in Hc, Hj. auto.
Qed.

Lemma undo_frame (e : Engine) :
  Inv e ->
  historyRef (undo e) = historyRef e /\ tempCanvas (undo e) = tempCanvas e
  /\ isDrawing (undo e) = isDrawing e /\ tool (undo e) = tool e
  /\ containerRect (undo e) = containerRect e
  /\ ctx (mainCanvas (undo e)) = ctx (mainCanvas e)
  /\ cwidth (mainCanvas (undo e)) = cwidth (mainCanvas e)
  /\ cheight (mainCanvas (undo e)) = cheight (mainCanvas e)
  /\ historyStep (undo e) = Z.max 0 (historyStep e - 1).
Proof.
  intro HI. destruct (Z_lt_le_dec 0 (historyStep e)) as [Hpos|Hle].
  - destruct (undo_eq L HI Hpos) as (d & _ & ->).
    cbn [withMain withHistory historyRef tempCanvas isDrawing tool containerRect
         mainCanvas ctx historyStep].
    unfold cwidth, cheight. cbn [bitmap].
    destruct (restored_dims d (iwidth (bitmap (mainCanvas e)))
                (iheight (bitmap (mainCanvas e)))) as [-> ->].
    repeat split. lia.
  - assert (E : undo e = e).
    { unfold undo. replace (historyStep e >? 0) with false; [reflexivity|].
      symmetry. rewrite Z.gtb_ltb. apply Z.ltb_ge. exact Hle. }
    rewrite E. destruct HI as (Hb & _). repeat split. lia.
Qed.

Lemma redo_frame (e : Engine) :
  Inv e ->
  historyRef (redo e) = historyRef e /\ tempCanvas (redo e) = tempCanvas e
  /\ isDrawing (redo e) = isDrawing e /\ tool (redo e) = tool e
  /\ containerRect (redo e) = containerRect e
  /\ ctx (mainCanvas (redo e)) = ctx (mainCanvas e)
  /\ cwidth (mainCanvas (redo e)) = cwidth (mainCanvas e)
  /\ cheight (mainCanvas (redo e)) = cheight (mainCanvas e)
  /\ historyStep (redo e) = Z.min (len (historyRef e) - 1) (historyStep e + 1).
Proof.
  intro HI. destruct (Z_lt_le_dec (historyStep e) (len (historyRef e) - 1)) as [Hlt|Hle].
  - destruct (redo_eq L HI Hlt) as (d & _ & ->).
    cbn [withMain withHistory historyRef tempCanvas isDrawing tool containerRect
         mainCanvas ctx historyStep].
    unfold cwidth, cheight. cbn [bitmap].
    destruct (restored_dims d (iwidth (bitmap (mainCanvas e)))
                (iheight (bitmap (mainCanvas e)))) as [-> ->].
    repeat split. lia.
  - assert (E : redo e = e).
    { unfold redo. replace (historyStep e <? len (historyRef e) - 1) with false; [reflexivity|].
      symmetry. apply Z.ltb_ge. exact Hle. }
    rewrite E. destruct HI as (Hb & _). repeat split. lia.
Qed.

(** X6: undo and redo only ever touch the pixels of the main canvas and the
    cursor: the history entries, the scratch canvas, the open-stroke flag,
    the size of the main canvas and the state of its context stay as they
    were. *)
Theorem undo_redo_frame (t : DrawingTool) (rect : Size) (evs : list Event) (ev : Event) :
  let e := run evs (mount t rect) in
  ev = Undo \/ ev = Redo ->
  historyRef (step ev e) = historyRef e /\ tempCanvas (step ev e) = tempCanvas e
  /\ isDrawing (step ev e) = isDrawing e
  /\ ctx (mainCanvas (step ev e)) = ctx (mainCanvas e)
  /\ cwidth (mainCanvas (step ev e)) = cwidth (mainCanvas e)
  /\ cheight (mainCanvas (step ev e)) = cheight (mainCanvas e).
Proof.
  intros e Hev. pose proof (Inv_reachable L t rect evs) as HI. fold e in HI.
  destruct Hev as [-> | ->]; cbn [step].
  - destruct (undo_frame HI) as (H1 & H2 & H3 & _ & _ & H6 & H7 & H8 & _).
    repeat split; assumption.
  - destruct (redo_frame HI) as (H1 & H2 & H3 & _ & _ & H6 & H7 & H8 & _).
    repeat split; assumption.
Qed.

Lemma undo_steps (n : nat) (e : Engine) :
  Inv e ->
  historyRef (run (repeat Undo n) e) = historyRef e
  /\ historyStep (run (repeat Undo n) e) = Z.max 0 (historyStep e - Z.of_nat n).
Proof.
  revert e; induction n as [|n IH]; intros e HI.
  - cbn [repeat run]. destruct HI as (Hb & _). split; [reflexivity|lia].
  - cbn [repeat run step]. destruct (undo_frame HI) as (Hh & _ & _ & _ & _ & _ & _ & _ & Hs).
    destruct (IH (undo e) (Inv_undo L HI)) as [Hh' Hs'].
    rewrite Hh', Hs', Hh, Hs. split; [reflexivity|lia].
Qed.

Lemma redo_steps (n : nat) (e : Engine) :
  Inv e ->
  historyRef (run (repeat Redo n) e) = historyRef e
  /\ historyStep (run (repeat Redo n) e)
     = Z.min (len (historyRef e) - 1) (historyStep e + Z.of_nat n).
Proof.
  revert e; induction n as [|n IH]; intros e HI.
  - cbn [repeat run]. destruct HI as (Hb & _). split; [reflexivity|lia].
  - cbn [repeat run step]. destruct (redo_frame HI) as (Hh & _ & _ & _ & _ & _ & _ & _ & Hs).
    destruct (IH (redo e) (Inv_redo L HI)) as [Hh' Hs'].
    rewrite Hh', Hs', Hh, Hs. split; [reflexivity|lia].
Qed.

(** X7: n undos in a row move the cursor down by n but never below 0, and
    n redos move it up by n but never past the last entry; neither changes
    the entries.  Undo at the first entry and redo at the last one do
    nothing. *)
Theorem repeated_undo_redo (t : DrawingTool) (rect : Size) (evs : list Event) (n : nat) :
  let e := run evs (mount t rect) in
  historyStep (run (repeat Undo n) e) = Z.max 0 (historyStep e - Z.of_nat n)
  /\ historyRef (run (repeat Undo n) e) = historyRef e
  /\ historyStep (run (repeat Redo n) e)
     = Z.min (len (historyRef e) - 1) (historyStep e + Z.of_nat n)
  /\ historyRef (run (repeat Redo n) e) = historyRef e
  /\ (historyStep e = 0 -> undo e = e)
  /\ (historyStep e = len (historyRef e) - 1 -> redo e = e).
Proof.
  intro e. pose proof (Inv_reachable L t rect evs) as HI. fold e in HI.
  destruct (undo_steps n HI) as [Hu1 Hu2]. destruct (redo_steps n HI) as [Hr1 Hr2].
  repeat split; try assumption.
  - intro H0. unfold undo. now rewrite H0.
  - intro H0. unfold redo. now rewrite H0, Z.ltb_irrefl.
Qed.

(** X8: an undo followed by a redo puts the cursor back where it was, keeps
    the entries, and leaves the committed surface showing the cursor entry;
    when the surface showed that entry before, its pixels are exactly the
    ones from before the undo. *)
Theorem undo_redo_roundtrip (t : DrawingTool) (rect : Size) (evs : list Event) :
  let e := run evs (mount t rect) in
  0 < historyStep e ->
  historyStep (redo (undo e)) = historyStep e
  /\ historyRef (redo (undo e)) = historyRef e
  /\ showsCursor (redo (undo e)) = true
  /\ (showsCursor e = true ->
      bitmap (mainCanvas (redo (undo e))) = bitmap (mainCanvas e)).
Proof.
  intros e Hpos. pose proof (Inv_reachable L t rect evs) as HI. fold e in HI.
  pose proof HI as (Hb & _).
  assert (HI1 : Inv (undo e)) by apply (Inv_undo L HI).
  destruct (undo_frame HI) as (Hh & _ & _ & _ & _ & _ & Hw & Hhh & Hs).
  assert (Hlt : historyStep (undo e) < len (historyRef (undo e)) - 1) by (rewrite Hh, Hs; lia).
  destruct (redo_frame HI1) as (Hh' & _ & _ & _ & _ & _ & _ & _ & Hs').
  split; [rewrite Hs', Hh, Hs; lia|]. split; [now rewrite Hh', Hh|].
  split; [now apply (shows_after_redo L)|].
  intro Hshow. destruct (showsCursor_restored L HI Hshow) as (d & Hd & Hres).
  destruct (redo_eq L HI1 Hlt) as (d' & Hd' & ->).
  cbn [withMain mainCanvas bitmap]. rewrite Hw, Hhh, <- Hres. f_equal.
  rewrite Hh, Hs in Hd'. replace (Z.max 0 (historyStep e - 1) + 1) with (historyStep e) in Hd' by lia.
  rewrite Hd in Hd'. now injection Hd'.
Qed.

(** X9: pointer-down and pointer-move events draw on the scratch canvas
    only: whatever their number and order, the main canvas, the history
    and the cursor stay as they were, so an export taken while a stroke is
    in progress does not contain it. *)
Theorem drawing_leaves_committed (evs : list Event) (e : Engine) :
  forallb pointerOnly evs = true ->
  mainCanvas (run evs e) = mainCanvas e
  /\ historyRef (run evs e) = historyRef e
  /\ historyStep (run evs e) = historyStep e
  /\ fst (exportImage (run evs e)) = fst (exportImage e).
Proof.
  revert e; induction evs as [|ev evs IH]; intros e Hp; cbn [run].
  - repeat split.
  - cbn [forallb] in Hp. apply andb_true_iff in Hp as [Hev Hp].
    destruct (IH (step ev e) Hp) as (H1 & H2 & H3 & H4).
    assert (Hs : mainCanvas (step ev e) = mainCanvas e
                 /\ historyRef (step ev e) = historyRef e
                 /\ historyStep (step ev e) = historyStep e).
    { destruct ev; try discriminate; cbn [step].
      - repeat split.
      - unfold draw. destruct (negb (isDrawing e)); repeat split. }
    destruct Hs as (S1 & S2 & S3).
    rewrite H1, H2, H3, S1, S2, S3. repeat split.
    unfold exportImage, toDataURL in *. cbn [fst] in *. now rewrite H1, S1.
Qed.

Lemma overlay_transparent (a : Q) (src dst : list (list Pixel)) :
  Forall (Forall (eq transparent)) src ->
  overlay (overlay (blend a)) src dst = dst.
Proof.
  revert src; induction dst as [|d ds IH]; intros [|s ss] Hs; cbn [overlay]; try reflexivity.
  inversion Hs as [|? ? Hrow Hrest]; subst. rewrite (IH ss Hrest). f_equal.
  clear - L Hrow. revert s Hrow; induction d as [|p d IHd]; intros [|q s] Hrow;
    cbn [overlay]; try reflexivity.
  inversion Hrow as [|? ? Hq Hs']; subst. rewrite (IHd s Hs'). f_equal.
  apply (blend_clear L).
Qed.

(** X10: when a resize to another size arrives while a stroke is open, the
    scratch canvas is wiped; a pointer-up right after it composites
    nothing, so the committed surface is the stretched old content without
    the stroke, yet a history entry is recorded for it. *)
Theorem interrupted_stroke_is_lost (t : DrawingTool) (rect : Size) (evs : list Event)
    (s : Size) :
  let e := run evs (mount t rect) in
  let e1 := run [Layout s; WindowResize] e in
  let e2 := step PointerUp e1 in
  let w := fst (px s) in
  let h := snd (px s) in
  isDrawing e = true ->
  cwidth (mainCanvas e) <> w \/ cheight (mainCanvas e) <> h ->
  bitmap (tempCanvas e1) = blankImage w h
  /\ isDrawing e1 = true
  /\ bitmap (mainCanvas e2) = stretchFill (bitmap (mainCanvas e)) w h
  /\ historyStep e2 = len (historyRef e2) - 1
  /\ index (historyRef e2) (historyStep e2) = Some (stretchFill (bitmap (mainCanvas e)) w h).
Proof.
  intros e e1 e2 w h Hd Hne.
  pose proof (Inv_reachable L t rect evs) as HI. fold e in HI.
  assert (E : ((cwidth (mainCanvas (withContainer e (w, h)))
                =? fst (containerRect (withContainer e (w, h))))%nat
               && (cheight (mainCanvas (withContainer e (w, h)))
                   =? snd (containerRect (withContainer e (w, h))))%nat) = false).
  { cbn [withContainer containerRect mainCanvas fst snd].
    apply andb_false_iff. destruct Hne as [Hne|Hne]; [left|right]; now apply Nat.eqb_neq. }
  assert (Hm : solid (bitmap (mainCanvas (withContainer e (w, h))))) by apply HI.
  assert (He1 : e1 = withTemp (withMain (withContainer e (w, h))
                      (mkCanvas (stretchFill (bitmap (mainCanvas e)) w h)
                         (mkCtx (mkDrawState white black 1%Q CapRound JoinRound 1%Q) [] [])))
                      (set_lineJoin (joinOf (shape (tool e)))
                         (set_lineCap (capOf (shape (tool e))) (newCanvas w h)))).
  { unfold e1. cbn [run step]. change (px s) with (w, h).
    now rewrite (handleResize_effective L _ Hm E). }
  assert (HI1 : Inv e1) by (unfold e1; apply (Inv_run L); exact HI).
  assert (Hd1 : isDrawing e1 = true) by (rewrite He1; exact Hd).
  assert (Hr : recording PointerUp e1 = true) by exact Hd1.
  destruct (recording_cursor PointerUp HI1 Hr) as (Hend & _ & Hcur & _).
  fold e2 in Hend, Hcur.
  assert (Hmain : bitmap (mainCanvas e2) = stretchFill (bitmap (mainCanvas e)) w h).
  { unfold e2. cbn [step]. rewrite (stopDrawing_open e1 Hd1).
    match goal with |- context [saveToHistory ?x] =>
      destruct (saveToHistory_frame x) as (Hf & _); rewrite Hf end.
    cbn [mainCanvas bitmap]. rewrite He1.
    cbn [withTemp withMain mainCanvas tempCanvas bitmap]. unfold composite.
    cbn [set_lineJoin set_lineCap withState newCanvas bitmap blankImage data].
    rewrite overlay_transparent; [reflexivity|].
    apply Forall_forall; intros r Hr'. apply repeat_spec in Hr'; subst r.
    apply Forall_forall; intros p Hp. apply repeat_spec in Hp. now subst p. }
  split; [now rewrite He1|]. split; [exact Hd1|]. split; [exact Hmain|].
  split; [exact Hend|]. now rewrite Hcur, Hmain.
Qed.

(** X11: in a container of positive size no canvas and no history snapshot
    ever has width or height 0, so [getImageData] and [drawImage] from a
    canvas are never called on an empty surface. *)
Theorem surfaces_never_empty (t : DrawingTool) (rect : Size) (evs : list Event) :
  let e := run evs (mount t rect) in
  nonEmpty (bitmap (mainCanvas e)) /\ nonEmpty (bitmap (tempCanvas e))
  /\ Forall nonEmpty (historyRef e).
Proof.
  intro e. destruct (Sized_reachable L t rect evs) as ((Hw & Hh) & Hf & _).
  destruct (Tidy_reachable t rect evs) as (_ & Hw' & Hh' & _).
  fold e in Hw, Hh, Hf, Hw', Hh'. unfold nonEmpty, cwidth, cheight in *.
  split; [split; assumption|]. split; [|exact Hf]. rewrite Hw', Hh'. split; assumption.
Qed.

(** X12: an image with the aspect ratio of the surface is drawn over the
    whole surface, with no bars. *)
Theorem same_aspect_fills_surface (iw ih cw ch : nat) :
  (0 < iw)%nat -> (0 < ih)%nat -> (0 < cw)%nat -> (0 < ch)%nat ->
  (iw * ch = cw * ih)%nat ->
  let r := aspectFit iw ih cw ch in
  (rx r == 0 /\ ry r == 0 /\ rw r == QofNat cw /\ rh r == QofNat ch)%Q.
Proof.
  intros Hiw Hih Hcw Hch Heq.
  pose proof (QofNat_pos Hiw) as A. pose proof (QofNat_pos Hih) as B.
  pose proof (QofNat_pos Hcw) as C. pose proof (QofNat_pos Hch) as D.
  assert (Hq : (QofNat iw * QofNat ch == QofNat cw * QofNat ih)%Q).
  { unfold QofNat. rewrite <- !inject_Z_mult, <- !Nat2Z.inj_mul, Heq. reflexivity. }
  unfold aspectFit.
  set (a := QofNat iw) in *. set (b := QofNat ih) in *.
  set (c := QofNat cw) in *. set (d := QofNat ch) in *.
  assert (Hb : (~ b == 0)%Q) by lra. assert (Hd : (~ d == 0)%Q) by lra.
  assert (W : (d * (a / b) == c)%Q).
  { assert (H1 : (d * (a / b) == a * d / b)%Q) by (field; assumption).
    rewrite H1, Hq. field. assumption. }
  assert (E : Qle_bool (a / b) (c / d) = true).
  { apply Qle_bool_iff.
    assert (H1 : (a / b == c / d)%Q).
    { assert (H2 : (a / b == a * d / (b * d))%Q) by (field; split; assumption).
      rewrite H2, Hq. field. split; assumption. }
    rewrite H1. apply Qle_refl. }
  rewrite E. cbn [negb rx ry rw rh]. rewrite W, Qhalf.
  repeat split; try reflexivity. ring.
Qed.

(** X13: a loaded image is one history entry: right after the load the
    surface shows the cursor entry, an undo (when the surface showed its
    entry before the load) brings back the pixels from before the load,
    and a redo brings the loaded image back. *)
Theorem load_is_undoable (t : DrawingTool) (rect : Size) (evs : list Event)
    (img : ImageData) :
  let e := run evs (mount t rect) in
  let e' := loadImage (Some img) e in
  showsCursor e' = true /\ 0 < historyStep e'
  /\ (showsCursor e = true -> bitmap (mainCanvas (undo e')) = bitmap (mainCanvas e))
  /\ bitmap (mainCanvas (redo (undo e'))) = bitmap (mainCanvas e').
Proof.
  intros e e'. pose proof (Inv_reachable L t rect evs) as HI. fold e in HI.
  assert (Hr : recording (ImageLoaded img) e = true) by reflexivity.
  destruct (recording_cursor (ImageLoaded img) HI Hr) as (_ & Hpos & _).
  split; [exact (shows_after_record L (ImageLoaded img) HI Hr)|].
  split; [cbn [step] in Hpos; fold e' in Hpos; lia|].
  split.
  - intro Hs. exact (undo_after_record L (ImageLoaded img) HI Hr Hs).
  - exact (redo_after_undo L (ImageLoaded img) HI Hr).
Qed.

(** X14: mounting leaves the canvases at the size of the container, no
    stroke open, and exactly one history entry under the cursor: the
    white bitmap of the default canvas size 300 by 150, taken before the
    first resize. *)
Theorem mount_snapshot_default_size (t : DrawingTool) (rect : Size) :
  let e := mount t rect in
  historyRef e = [mkImage 300 150 (whiteRows 300 150)] /\ historyStep e = 0
  /\ (cwidth (mainCanvas e), cheight (mainCanvas e)) = px rect
  /\ isDrawing e = false /\ tool e = t.
Proof.
  intro e. unfold e, mount. set (e0 := initEffect (initial t rect)).
  destruct (handleResize_history e0) as [Hh Hs].
  assert (H0 : historyRef e0 = [mkImage 300 150 (whiteRows 300 150)] /\ historyStep e0 = 0
               /\ containerRect e0 = px rect /\ isDrawing e0 = false /\ tool e0 = t).
  { unfold e0. rewrite (initEffect_initial L). repeat split. }
  destruct H0 as (H1 & H2 & H3 & H4 & H5).
  unfold toolEffect. cbn [withTemp historyRef historyStep mainCanvas isDrawing tool].
  rewrite Hh, Hs, H1, H2. split; [reflexivity|]. split; [reflexivity|].
  destruct ((cwidth (mainCanvas e0) =? fst (containerRect e0))%nat
            && (cheight (mainCanvas e0) =? snd (containerRect e0))%nat) eqn:E.
  - assert (Hr : handleResize e0 = e0).
    { unfold handleResize. destruct (containerRect e0) as [w h]; cbn [fst snd] in E.
      now rewrite E. }
    rewrite Hr, H4, H5. apply andb_true_iff in E as [E1 E2].
    apply Nat.eqb_eq in E1, E2. rewrite E1, E2, <- H3.
    split; [now destruct (containerRect e0)|]. split; reflexivity.
  - assert (Hm : solid (bitmap (mainCanvas e0))) by apply (Inv_initEffect L).
    rewrite (handleResize_effective L _ Hm E).
    cbn [withMain withTemp mainCanvas isDrawing tool]. unfold cwidth, cheight.
    cbn [bitmap stretchFill iwidth iheight]. rewrite H3, H4, H5.
    split; [now destruct (px rect)|]. split; reflexivity.
Qed.

(** ** The resize handler on any rectangle *)

Lemma QofNat_eqb (a b : nat) : Qeq_bool (QofNat a) (QofNat b) = (a =? b)%nat.
Proof.
  destruct (Nat.eqb_spec a b) as [->|Hne]; [apply Qeq_bool_refl|].
  destruct (Qeq_bool (QofNat a) (QofNat b)) eqn:E; [|reflexivity].
  apply Qeq_bool_eq in E. unfold QofNat in E. apply (proj1 (inject_Z_injective _ _)) in E.
  apply Nat2Z.inj in E. contradiction.
Qed.

Lemma sideOk_bounds (x : Q) : sideOk x = true -> (1 <= x)%Q /\ 1 <= Qfloor x <= 2147483647.
Proof.
  unfold sideOk. intro H. apply andb_true_iff in H as [H1 H2].
  apply Qle_bool_iff in H1, H2. split; [exact H1|]. split.
  - change 1 with (Qfloor (inject_Z 1)). now apply Qfloor_resp_le.
  - change 2147483647 with (Qfloor (inject_Z 2147483647)). now apply Qfloor_resp_le.
Qed.

Lemma sideOk_QofNat (n : nat) :
  sideOk (QofNat n) = true -> (0 < n)%nat /\ pixels (QofNat n) = n.
Proof.
  intro H. apply sideOk_bounds in H as [_ [H1 _]].
  unfold pixels, QofNat in *. rewrite Qfloor_Z in *. lia.
Qed.

(** Within the range of a layout size, assigning a canvas dimension drops
    the fraction. *)
Lemma assignedSize_side (d : nat) (x : Q) : sideOk x = true -> assignedSize d x = pixels x.
Proof.
  intro H. apply sideOk_bounds in H as [Hx [H1 H2]].
  unfold assignedSize, toUnsignedLong, integerPart, pixels.
  assert (H0 : Qle_bool 0 x = true) by (apply Qle_bool_iff; lra).
  rewrite H0, Z.mod_small by lia.
  destruct (Qfloor x <=? 2147483647) eqn:E; [reflexivity|].
  apply Z.leb_gt in E. lia.
Qed.

Lemma sideOk_nonneg (x : Q) : sideOk x = true -> Qle_bool 0 x = true.
Proof.
  intro H. apply sideOk_bounds in H as [Hx _]. apply Qle_bool_iff. lra.
Qed.

(** A canvas dimension never equals a number with a fractional part. *)
Lemma fraction_never_matches (x : Q) (n : nat) :
  whole x = false -> Qeq_bool (QofNat n) x = false.
Proof.
  intro H. destruct (Qeq_bool (QofNat n) x) eqn:E; [|reflexivity].
  apply Qeq_bool_eq in E. unfold whole in H.
  rewrite <- (Qfloor_comp _ _ E) in H. unfold QofNat in H at 1. rewrite Qfloor_Z in H.
  apply Qeq_eq_bool in E. unfold QofNat in E. congruence.
Qed.

Lemma whole_matches (x : Q) :
  sideOk x = true -> whole x = true -> Qeq_bool (QofNat (pixels x)) x = true.
Proof.
  intros Hs Hw. apply sideOk_bounds in Hs as [_ [H1 _]].
  unfold pixels, QofNat. rewrite Z2Nat.id by lia. exact Hw.
Qed.

Lemma solid_stretchInto (src : ImageData) (r : Rect) (w h : nat) :
  solid (stretchInto src r w h).
Proof.
  split; simpl.
  - apply shaped_mapPixels, shaped_repeat.
  - apply (opaque_mapPixels L), (opaque_repeat white). reflexivity.
Qed.


(** The main canvas once [handleResizeAt] has resized and repainted it. *)
Lemma resized_main_at (b : ImageData) (r : Rect) (w h : nat) :
  set_lineJoin JoinRound (set_lineCap CapRound
    (drawImageScaled b r (fillRect (set_fillStyle white (newCanvas w h)))))
  = mkCanvas (stretchInto b r w h) roundCtx.
Proof.
  unfold drawImageScaled, fillRect, set_fillStyle, set_lineJoin, set_lineCap,
    newCanvas, withRows, withState, style, cwidth, cheight, blankImage, stretchInto,
    roundCtx; simpl.
  unfold blankRows. rewrite (fill_white L (shaped_repeat transparent w h)). reflexivity.
Qed.

(** The state a resize leaves when the dimension check fails. *)
Lemma handleResizeAt_effective (w h : Q) (e : Engine) :
  solid (bitmap (mainCanvas e)) -> sideOk w = true -> sideOk h = true ->
  Qeq_bool (QofNat (cwidth (mainCanvas e))) w
  && Qeq_bool (QofNat (cheight (mainCanvas e))) h = false ->
  handleResizeAt w h e
  = withTemp (withMain e
      (mkCanvas (stretchInto (bitmap (mainCanvas e)) (rectOf w h) (pixels w) (pixels h))
         roundCtx))
      (set_lineJoin (joinOf (shape (tool e)))
         (set_lineCap (capOf (shape (tool e))) (newCanvas (pixels w) (pixels h)))).
Proof.
  intros Hm Hw Hh E. unfold handleResizeAt. rewrite E.
  rewrite (sideOk_nonneg _ Hw), (sideOk_nonneg _ Hh). cbn [andb].
  rewrite !(assignedSize_side _ _ Hw), !(assignedSize_side _ _ Hh).
  rewrite (snapshot_bitmap L _ Hm). now rewrite resized_main_at.
Qed.

Lemma handleResizeAt_settled (w h : Q) (e : Engine) :
  Qeq_bool (QofNat (cwidth (mainCanvas e))) w
  && Qeq_bool (QofNat (cheight (mainCanvas e))) h = true ->
  handleResizeAt w h e = e.
Proof. intro E. unfold handleResizeAt. now rewrite E. Qed.


Lemma Inv_handleResizeAt (w h : Q) (e : Engine) :
  sideOk w = true -> sideOk h = true -> Inv e -> Inv (handleResizeAt w h e).
Proof.
  intros Hw Hh H.
  destruct (Qeq_bool (QofNat (cwidth (mainCanvas e))) w
            && Qeq_bool (QofNat (cheight (mainCanvas e))) h) eqn:E.
  - now rewrite handleResizeAt_settled.
  - destruct H as (Hs & Hc & Ha & Hm & Hi).
    rewrite handleResizeAt_effective by assumption. unfold Inv.
    cbn [withTemp withMain mainCanvas historyRef historyStep bitmap].
    refine (conj Hs (conj Hc (conj eq_refl (conj _ Hi)))).
    apply solid_stretchInto.
Qed.

Lemma Inv_resizes (w h : Q) (n : nat) (e : Engine) :
  sideOk w = true -> sideOk h = true -> Inv e -> Inv (Nat.iter n (handleResizeAt w h) e).
Proof.
  intros Hw Hh H. induction n as [|n IH]; [exact H|].
  cbn [Nat.iter nat_rect]. now apply Inv_handleResizeAt.
Qed.

(** On a container of whole pixels the handler of the event loop is the
    handler on the reported rectangle. *)
Lemma handleResize_whole_pixels (e : Engine) :
  sideOk (QofNat (fst (containerRect e))) = true ->
  sideOk (QofNat (snd (containerRect e))) = true ->
  handleResize e
  = handleResizeAt (QofNat (fst (containerRect e))) (QofNat (snd (containerRect e))) e.
Proof.
  intros Hw Hh. unfold handleResize, handleResizeAt.
  destruct (containerRect e) as [w h]; cbn [fst snd] in *.
  rewrite !QofNat_eqb.
  rewrite (sideOk_nonneg _ Hw), (sideOk_nonneg _ Hh). cbn [andb].
  rewrite !(assignedSize_side _ _ Hw), !(assignedSize_side _ _ Hh).
  destruct (sideOk_QofNat _ Hw) as [_ ->]. destruct (sideOk_QofNat _ Hh) as [_ ->].
  reflexivity.
Qed.

(** X15: when the container's rectangle has whole-pixel sides, a resize
    leaves both canvases with exactly the size of the container, whatever
    happened before, and a second resize on the same rectangle returns the
    state unchanged. *)
Theorem resize_settles (t : DrawingTool) (rect : Size) (evs : list Event) (w h : Q) :
  let e := run evs (mount t rect) in
  let e' := handleResizeAt w h e in
  sideOk w = true -> sideOk h = true -> whole w = true -> whole h = true ->
  (QofNat (cwidth (mainCanvas e')) == w)%Q /\ (QofNat (cheight (mainCanvas e')) == h)%Q
  /\ cwidth (tempCanvas e') = cwidth (mainCanvas e')
  /\ cheight (tempCanvas e') = cheight (mainCanvas e')
  /\ handleResizeAt w h e' = e'.
Proof.
  intros e e' Hw Hh Ww Wh.
  pose proof (Inv_reachable L t rect evs) as HI. fold e in HI.
  destruct (Tidy_reachable t rect evs) as (_ & Htw & Hth & _). fold e in Htw, Hth.
  unfold e'.
  destruct (Qeq_bool (QofNat (cwidth (mainCanvas e))) w
            && Qeq_bool (QofNat (cheight (mainCanvas e))) h) eqn:E.
  - rewrite !(handleResizeAt_settled _ _ _ E).
    apply andb_true_iff in E as [E1 E2]. apply Qeq_bool_eq in E1, E2.
    exact (conj E1 (conj E2 (conj Htw (conj Hth eq_refl)))).
  - assert (Hm : solid (bitmap (mainCanvas e))) by apply HI.
    rewrite (handleResizeAt_effective _ _ _ Hm Hw Hh E).
    pose proof (whole_matches _ Hw Ww) as Mw. pose proof (whole_matches _ Hh Wh) as Mh.
    refine (conj _ (conj _ (conj eq_refl (conj eq_refl _)))).
    + apply Qeq_bool_eq. exact Mw.
    + apply Qeq_bool_eq. exact Mh.
    + apply handleResizeAt_settled.
      cbn [withTemp withMain mainCanvas]. unfold cwidth, cheight.
      cbn [bitmap stretchInto iwidth iheight]. now rewrite Mw, Mh.
Qed.

(** X21: when the width or the height of the container's rectangle has a
    fractional part, the dimension check of the resize handler never
    succeeds: every resize event, also one that follows another with the
    rectangle unchanged, resets the scratch canvas to a blank one and
    replaces the committed surface by its own content stretched over
    white into the reported rectangle, on a canvas of the integer parts;
    history, cursor and the drawing flag stay as they are. *)
Theorem fractional_resize_never_settles (t : DrawingTool) (rect : Size) (evs : list Event)
    (w h : Q) (n : nat) :
  let e := Nat.iter n (handleResizeAt w h) (run evs (mount t rect)) in
  let e' := handleResizeAt w h e in
  sideOk w = true -> sideOk h = true -> whole w && whole h = false ->
  bitmap (mainCanvas e')
  = stretchInto (bitmap (mainCanvas e)) (rectOf w h) (pixels w) (pixels h)
  /\ tempCanvas e'
     = set_lineJoin (joinOf (shape (tool e)))
         (set_lineCap (capOf (shape (tool e))) (newCanvas (pixels w) (pixels h)))
  /\ allPixels transparent (bitmap (tempCanvas e'))
  /\ historyRef e' = historyRef e /\ historyStep e' = historyStep e
  /\ isDrawing e' = isDrawing e.
Proof.
  intros e e' Hw Hh Hf.
  assert (HI : Inv e) by (apply Inv_resizes; try assumption; apply (Inv_reachable L)).
  assert (Hm : solid (bitmap (mainCanvas e))) by apply HI.
  assert (E : Qeq_bool (QofNat (cwidth (mainCanvas e))) w
              && Qeq_bool (QofNat (cheight (mainCanvas e))) h = false).
  { apply andb_false_iff in Hf as [Hf|Hf]; apply andb_false_iff; [left|right];
      now apply fraction_never_matches. }
  unfold e'. rewrite (handleResizeAt_effective _ _ _ Hm Hw Hh E).
  cbn [withTemp withMain mainCanvas tempCanvas historyRef historyStep isDrawing bitmap].
  refine (conj eq_refl (conj eq_refl (conj _ (conj eq_refl (conj eq_refl eq_refl))))).
  unfold allPixels, set_lineJoin, set_lineCap, withState, newCanvas, blankImage, blankRows.
  cbn [bitmap data].
  apply Forall_forall; intros r Hr. apply repeat_spec in Hr; subst r.
  apply Forall_forall; intros p Hp. apply repeat_spec in Hp. now subst p.
Qed.


End MoreFacts.

(** * The image service *)

Lemma append_nil_r (s : string) : (s ++ "")%string = s.
Proof. induction s as [|a s IH]; cbn; congruence. Qed.

Lemma append_assoc (a b c : string) : ((a ++ b) ++ c)%string = (a ++ (b ++ c))%string.
Proof. induction a as [|x a IH]; cbn; congruence. Qed.

Lemma dropPrefix_app (p s : string) : dropPrefix p (p ++ s) = Some s.
Proof.
  induction p as [|a p IH]; cbn; [reflexivity|]. now rewrite Ascii.eqb_refl.
Qed.

Lemma dropPrefix_Some (p s r : string) : dropPrefix p s = Some r -> s = (p ++ r)%string.
Proof.
  revert s; induction p as [|a p IH]; intros s H; cbn in *.
  - now injection H.
  - destruct s as [|b s]; [discriminate|].
    destruct (Ascii.eqb a b) eqn:E; [|discriminate].
    apply Ascii.eqb_eq in E. subst b. f_equal. now apply IH.
Qed.

Lemma dropPrefix_None (p s r : string) : dropPrefix p s = None -> s <> (p ++ r)%string.
Proof. intros H ->. rewrite dropPrefix_app in H. discriminate. Qed.

(** X16: a data URL with a png, jpeg or jpg header is cleaned to exactly
    what follows the header. *)
Theorem cleanBase64_strips_header (h b : string) :
  In h headers -> cleanBase64 (h ++ b) = b.
Proof.
  unfold headers. intros [<-|[<-|[<-|[]]]]; reflexivity.
Qed.

(** X17: cleaning removes at most one header, and only at the very start:
    either the input starts with one of the three headers and the result
    is the rest, or it starts with none of them and is returned as it is. *)
Theorem cleanBase64_exact (s : string) :
  (exists h, In h headers /\ s = (h ++ cleanBase64 s)%string)
  \/ ((forall h b, In h headers -> s <> (h ++ b)%string) /\ cleanBase64 s = s).
Proof.
  unfold cleanBase64.
  destruct (dropPrefix "data:image/" s) as [rest|] eqn:E0.
  - apply dropPrefix_Some in E0.
    destruct (dropPrefix "png;base64," rest) as [b|] eqn:E1.
    { left. exists "data:image/png;base64,"%string. split; [cbn; auto|].
      apply dropPrefix_Some in E1. now rewrite E0, E1. }
    destruct (dropPrefix "jpeg;base64," rest) as [b|] eqn:E2.
    { left. exists "data:image/jpeg;base64,"%string. split; [cbn; auto|].
      apply dropPrefix_Some in E2. now rewrite E0, E2. }
    destruct (dropPrefix "jpg;base64," rest) as [b|] eqn:E3.
    { left. exists "data:image/jpg;base64,"%string. split; [cbn; auto|].
      apply dropPrefix_Some in E3. now rewrite E0, E3. }
    right. split; [|reflexivity].
    intros h b [<-|[<-|[<-|[]]]] Hs; rewrite Hs in E0;
      cbn in E0; injection E0 as <-; cbn in E1, E2, E3; congruence.
  - right. split; [|reflexivity].
    intros h b [<-|[<-|[<-|[]]]] Hs; rewrite Hs in E0; discriminate E0.
Qed.

Lemma concat_cons (x : string) (xs : list string) :
  String.concat "" (x :: xs) = (x ++ String.concat "" xs)%string.
Proof. destruct xs; cbn; [now rewrite append_nil_r|reflexivity]. Qed.

Lemma readParts_text (ps : list Part) (t i : string) :
  fst (fold_left readPart ps (t, i)) = (t ++ String.concat "" (map partText ps))%string.
Proof.
  revert t i; induction ps as [|p ps IH]; intros t i.
  - cbn. now rewrite append_nil_r.
  - cbn [fold_left map]. rewrite concat_cons. unfold readPart at 2, partText at 1.
    cbn [fst snd]. destruct (inlineData p) as [d|].
    + now rewrite IH.
    + destruct (text p) as [t'|]; [|now rewrite IH].
      destruct (t' =? "")%string eqn:E.
      * apply String.eqb_eq in E. subst t'. now rewrite IH.
      * now rewrite IH, append_assoc.
Qed.

Lemma readParts_image (ps : list Part) (t i i0 : string) (o : option string) :
  i = match o with Some d => ("data:image/png;base64," ++ d)%string | None => i0 end ->
  snd (fold_left readPart ps (t, i))
  = match fold_left (fun acc part => match inlineData part with
                                     | Some d => Some d
                                     | None => acc
                                     end) ps o with
    | Some d => ("data:image/png;base64," ++ d)%string
    | None => i0
    end.
Proof.
  revert t i o; induction ps as [|p ps IH]; intros t i o Hi.
  - exact Hi.
  - cbn [fold_left]. unfold readPart at 2. cbn [fst snd].
    destruct (inlineData p) as [d|].
    + now apply IH.
    + destruct (text p) as [t'|]; [|now apply IH].
      destruct (t' =? "")%string; now apply IH.
Qed.

(** X18: reading a response raises exactly when the [candidates] array is
    present but empty; otherwise only the first candidate is read, the
    text returned is the concatenation, in order, of the texts of its
    parts that carry no blob, and the image is the PNG data URL of its
    last blob, or the empty string when it has none. *)
Theorem parseResponse_spec (response : GenerateContentResponse) :
  (candidates response = Some [] -> parseResponse response = TypeError)
  /\ (candidates response <> Some [] ->
      parseResponse response
      = Ok (String.concat "" (map partText (firstParts response)),
            match lastBlob (firstParts response) with
            | Some d => ("data:image/png;base64," ++ d)%string
            | None => EmptyString
            end)).
Proof.
  unfold parseResponse, firstParts. split.
  - now intros ->.
  - intro Hne. destruct (candidates response) as [[|c cs]|]; try reflexivity; [congruence|].
    destruct (content c) as [ct|]; [|reflexivity].
    destruct (parts ct) as [ps|]; [|reflexivity].
    f_equal. rewrite (surjective_pairing (fold_left readPart ps (EmptyString, EmptyString))).
    rewrite readParts_text. f_equal.
    now apply readParts_image with (i0 := EmptyString).
Qed.

Lemma parseResponse_parts (ps : list Part) (cs : list Candidate) :
  parseResponse (mkResponse (Some (mkCandidate (Some (mkContent (Some ps))) :: cs)))
  = Ok (String.concat "" (map partText ps),
        match lastBlob ps with
        | Some d => ("data:image/png;base64," ++ d)%string
        | None => EmptyString
        end).
Proof.
  unfold parseResponse. cbn [candidates content parts]. f_equal.
  rewrite (surjective_pairing (fold_left readPart ps (EmptyString, EmptyString))).
  rewrite readParts_text. f_equal.
  now apply readParts_image with (i0 := EmptyString).
Qed.

(** X19: the image URL the service returns can be handed back to it as a
    sketch: cleaning it gives the data of the blob it was built from. *)
Theorem image_url_roundtrip (ps : list Part) (cs : list Candidate) :
  let response := mkResponse (Some (mkCandidate (Some (mkContent (Some ps))) :: cs)) in
  exists t u, parseResponse response = Ok (t, u)
    /\ cleanBase64 u = match lastBlob ps with Some d => d | None => EmptyString end.
Proof.
  intro response. eexists _, _. split; [apply parseResponse_parts|].
  destruct (lastBlob ps); reflexivity.
Qed.

(** * The component on explicit inputs *)

#[local] Existing Instance refRaster.


Lemma history_bounded_example :
  let e := run (R := refRaster) (concat (map strokeEvents (repeat dot 50))) board in
  recording ClearCanvas e = true
  /\ historyStep e = 49 /\ len (historyRef e) = 50
  /\ historyStep (step ClearCanvas e) = len (historyRef (step ClearCanvas e)) - 1.
Proof.
  intro e.
  assert (Hr : recording ClearCanvas e = true) by reflexivity.
  destruct (history_bounded refRaster_laws pen (2, 1)%positive
              (concat (map strokeEvents (repeat dot 50))) ClearCanvas (repeat dot 50))
    as (_ & Hrec & Hs & Hl).
  destruct (Hrec Hr) as (_ & _ & Hend).
  split; [exact Hr|]. split; [exact Hs|]. split; [exact Hl|exact Hend].
Defined.

Lemma record_cuts_redo_branch_example :
  let e := run (R := refRaster) (strokeEvents dot ++ [Undo]) board in
  recording ClearCanvas e = true
  /\ historyStep e < len (historyRef e) - 1
  /\ historyStep (step ClearCanvas e) = len (historyRef (step ClearCanvas e)) - 1.
Proof.
  intro e.
  assert (Hr : recording ClearCanvas e = true) by reflexivity.
  assert (Hlt : historyStep e < len (historyRef e) - 1) by (vm_compute; reflexivity).
  destruct (record_cuts_redo_branch refRaster_laws pen (2, 1)%positive
              (strokeEvents dot ++ [Undo]) ClearCanvas dot) as (Hrec & _).
  destruct (Hrec Hr Hlt) as (_ & Hend).
  split; [exact Hr|]. split; [exact Hlt|exact Hend].
Defined.

Lemma restore_rescales_example :
  let e := run (R := refRaster)
             (strokeEvents dot ++ strokeEvents dot ++ strokeEvents dot
              ++ [Undo; Layout (1, 1)%positive; WindowResize]) board in
  0 < historyStep e /\ historyStep e < len (historyRef e) - 1
  /\ (exists d, index (historyRef e) (historyStep e - 1) = Some d
        /\ (iwidth d <> cwidth (mainCanvas e) \/ iheight d <> cheight (mainCanvas e))
        /\ bitmap (mainCanvas (undo e))
           = stretchFill d (cwidth (mainCanvas e)) (cheight (mainCanvas e)))
  /\ (exists d, index (historyRef e) (historyStep e + 1) = Some d
        /\ (iwidth d <> cwidth (mainCanvas e) \/ iheight d <> cheight (mainCanvas e))
        /\ bitmap (mainCanvas (redo e))
           = stretchFill d (cwidth (mainCanvas e)) (cheight (mainCanvas e))).
Proof.
  intro e.
  assert (H0 : 0 < historyStep e) by (vm_compute; reflexivity).
  assert (H1 : historyStep e < len (historyRef e) - 1) by (vm_compute; reflexivity).
  destruct (restore_rescales refRaster_laws pen (2, 1)%positive
              (strokeEvents dot ++ strokeEvents dot ++ strokeEvents dot
              ++ [Undo; Layout (1, 1)%positive; WindowResize]))
    as (Hu & Hr & _).
  split; [exact H0|]. split; [exact H1|]. split.
  - destruct (Hu H0) as (d & Hd & _ & Hm). exists d.
    assert (Hne : iwidth d <> cwidth (mainCanvas e) \/ iheight d <> cheight (mainCanvas e)).
    { left. vm_compute in Hd. injection Hd as <-. vm_compute. discriminate. }
    split; [exact Hd|]. split; [exact Hne|exact (Hm Hne)].
  - destruct (Hr H1) as (d & Hd & _ & Hm). exists d.
    assert (Hne : iwidth d <> cwidth (mainCanvas e) \/ iheight d <> cheight (mainCanvas e)).
    { left. vm_compute in Hd. injection Hd as <-. vm_compute. discriminate. }
    split; [exact Hd|]. split; [exact Hne|exact (Hm Hne)].
Defined.


Lemma clearCanvas_resets_example :
  let e := run (R := refRaster) (strokeEvents dot) board in
  showsCursor e = true
  /\ pixelAt (bitmap (mainCanvas e)) 0 0 = black
  /\ allPixels white (bitmap (mainCanvas (clearCanvas e)))
  /\ pixelAt (bitmap (mainCanvas (undo (clearCanvas e)))) 0 0 = black
  /\ bitmap (mainCanvas (undo (clearCanvas e))) = bitmap (mainCanvas e).
Proof.
  intro e.
  assert (Hs : showsCursor e = true) by (vm_compute; reflexivity).
  assert (Hb : pixelAt (bitmap (mainCanvas e)) 0 0 = black) by (vm_compute; reflexivity).
  destruct (clearCanvas_resets refRaster_laws pen (2, 1)%positive (strokeEvents dot))
    as (Hw & _ & _ & _ & _ & Hu).
  split; [exact Hs|]. split; [exact Hb|]. split; [exact Hw|].
  split; [|exact (Hu Hs)].
  replace (bitmap (mainCanvas (undo (clearCanvas e)))) with (bitmap (mainCanvas e));
    [exact Hb|symmetry; exact (Hu Hs)].
Defined.

Lemma undo_redo_stroke_example :
  let e := run (R := refRaster) [PointerDown centre] board in
  isDrawing e = true /\ showsCursor e = true
  /\ bitmap (mainCanvas (undo (stopDrawing e))) = bitmap (mainCanvas e)
  /\ bitmap (mainCanvas (redo (undo (stopDrawing e)))) = bitmap (mainCanvas (stopDrawing e)).
Proof.
  intro e.
  assert (Hd : isDrawing e = true) by reflexivity.
  assert (Hs : showsCursor e = true) by (vm_compute; reflexivity).
  destruct (undo_redo_stroke refRaster_laws pen (2, 1)%positive [PointerDown centre] Hd)
    as [Hu Hr].
  split; [exact Hd|]. split; [exact Hs|]. split; [exact (Hu Hs)|exact Hr].
Defined.

Lemma loadImage_aspect_fit_example :
  let e := mount (R := refRaster) pen (100, 100)%positive in
  (cwidth (mainCanvas e) = 100 /\ cheight (mainCanvas e) = 100)%nat
  /\ (ry (aspectFit 200 100 100 100) == 25 /\ rh (aspectFit 200 100 100 100) == 50)%Q
  /\ pixelAt (bitmap (mainCanvas (loadImage (Some wideRed) e))) 50 10 = white
  /\ pixelAt (bitmap (mainCanvas (loadImage (Some wideRed) e))) 50 80 = white.
Proof.
  intro e.
  assert (Hw : cwidth (mainCanvas e) = 100%nat) by reflexivity.
  assert (Hh : cheight (mainCanvas e) = 100%nat) by reflexivity.
  destruct (loadImage_aspect_fit refRaster_laws pen (100, 100)%positive [] wideRed
              200 100 100 100) as (_ & _ & _ & Hfit & _ & Hbars).
  assert (Hp : (0 < 200)%nat /\ (0 < 100)%nat) by (split; lia).
  destruct (Hfit (proj1 Hp) (proj2 Hp) (proj2 Hp) (proj2 Hp)) as (_ & _ & _ & _ & _ & _ & _ & Hry).
  split; [split; [exact Hw|exact Hh]|].
  split; [split; [vm_compute; reflexivity|vm_compute; reflexivity]|].
  split.
  - apply (Hbars eq_refl eq_refl Hw Hh); lia.
  - apply (Hbars eq_refl eq_refl Hw Hh); lia.
Defined.

Lemma stroke_tool_capture_example :
  let e0 := mount (R := refRaster) halfPen (2, 1)%positive in
  let mids := [PointerMove (1, 1 # 2)%Q; SetTool pen] in
  let e2 := run (R := refRaster) mids (startDrawing centre e0) in
  forallb midStroke mids = true /\ settled e0 = true /\ widthOk (tool e0) = true
  /\ strokeStyle (style (tempCanvas e2)) = black
  /\ bitmap (mainCanvas (stopDrawing e2))
     = composite 1%Q (bitmap (tempCanvas e2)) (bitmap (mainCanvas e2)).
Proof.
  intros e0 mids e2.
  assert (Hm : forallb midStroke mids = true) by reflexivity.
  assert (Hs : settled e0 = true) by (vm_compute; reflexivity).
  assert (Hw : widthOk (tool e0) = true) by (vm_compute; reflexivity).
  assert (Ho : mode (toolAfter mids (tool e0)) = brush
               -> opacityOk (toolAfter mids (tool e0)) = true)
    by (intros _; vm_compute; reflexivity).
  destruct (stroke_tool_capture e0 centre mids Hm Hs Hw Ho) as (_ & Hc & _ & Hb).
  split; [exact Hm|]. split; [exact Hs|]. split; [exact Hw|].
  split; [exact Hc|exact Hb].
Defined.

(** Pixels before a stroke on the twice-resized board differ from the
    pixels that undoing the stroke brings back. *)
Lemma undo_after_resizes_differs :
  let e := run (R := refRaster) [PointerDown centre] twiceResized in
  isDrawing e = true
  /\ bitmap (mainCanvas (undo (stopDrawing e))) <> bitmap (mainCanvas e).
Proof.
  intro e. split; [reflexivity|].
  intro H. apply (f_equal (fun b => pixelAt b 0 0)) in H.
  vm_compute in H. discriminate H.
Qed.

(** Undoing a clear on the twice-resized board does not bring back the
    pre-clear pixels. *)
Lemma undo_clear_after_resizes_differs :
  bitmap (mainCanvas (undo (clearCanvas twiceResized)))
  <> bitmap (mainCanvas twiceResized).
Proof.
  intro H. apply (f_equal (fun b => pixelAt b 0 0)) in H.
  vm_compute in H. discriminate H.
Qed.

(** A tool change between pointer-down and pointer-up changes the alpha
    the stroke is composited with. *)
Lemma composite_uses_latest_tool :
  let e2 := run (R := refRaster) [PointerDown centre; SetTool pen]
              (mount (R := refRaster) halfPen (2, 1)%positive) in
  bitmap (mainCanvas (step PointerUp e2))
  <> composite (compositeAlpha halfPen) (bitmap (tempCanvas e2)) (bitmap (mainCanvas e2)).
Proof.
  intro e2. intro H. apply (f_equal (fun b => pixelAt b 0 0)) in H.
  vm_compute in H. discriminate H.
Qed.

(** ** Further properties on explicit inputs *)

Lemma cursor_always_valid_example :
  let e := run (strokeEvents dot ++ [Undo]) board in
  0 <= historyStep e < len (historyRef e).
Proof.
  intro e.
  exact (proj1 (cursor_always_valid refRaster_laws pen (2, 1)%positive
                  (strokeEvents dot ++ [Undo]))).
Defined.

Lemma committed_always_opaque_example :
  solid (bitmap (mainCanvas (run (strokeEvents dot) board))).
Proof.
  exact (proj1 (committed_always_opaque refRaster_laws pen (2, 1)%positive
                  (strokeEvents dot))).
Defined.

Lemma main_context_restored_example :
  ctx (mainCanvas (run (strokeEvents dot ++ [ClearCanvas; Undo]) board)) = roundCtx.
Proof.
  exact (main_context_restored refRaster_laws pen (2, 1)%positive
           (strokeEvents dot ++ [ClearCanvas; Undo])).
Defined.

Lemma surfaces_same_size_example :
  let e := run [Layout (3, 2)%positive; WindowResize] board in
  cwidth (tempCanvas e) = cwidth (mainCanvas e)
  /\ cheight (tempCanvas e) = cheight (mainCanvas e).
Proof.
  intro e.
  destruct (surfaces_same_size refRaster_laws pen (2, 1)%positive
              [Layout (3, 2)%positive; WindowResize]) as (Hw & Hh & _).
  split; [exact Hw|exact Hh].
Defined.

Lemma scratch_follows_tool_shape_example :
  let e := run [Layout (3, 2)%positive; WindowResize] board in
  lineCap (style (tempCanvas e)) = CapRound.
Proof.
  intro e.
  exact (proj1 (scratch_follows_tool_shape refRaster_laws pen (2, 1)%positive
                  [Layout (3, 2)%positive; WindowResize])).
Defined.

Lemma undo_redo_frame_example :
  let e := run (strokeEvents dot) board in
  historyRef (step Undo e) = historyRef e /\ tempCanvas (step Undo e) = tempCanvas e.
Proof.
  intro e.
  destruct (undo_redo_frame refRaster_laws pen (2, 1)%positive (strokeEvents dot)
              (ev := Undo) (or_introl eq_refl)) as (H1 & H2 & _).
  split; [exact H1|exact H2].
Defined.

Lemma repeated_undo_redo_example :
  let e := run (strokeEvents dot ++ strokeEvents dot) board in
  historyStep e = 2
  /\ historyStep (run (repeat Undo 5) e) = Z.max 0 (historyStep e - 5)
  /\ historyStep board = 0 /\ undo board = board.
Proof.
  intro e.
  destruct (repeated_undo_redo refRaster_laws pen (2, 1)%positive
              (strokeEvents dot ++ strokeEvents dot) 5) as (Hu & _).
  destruct (repeated_undo_redo refRaster_laws pen (2, 1)%positive [] 0)
    as (_ & _ & _ & _ & H0 & _).
  assert (He : historyStep e = 2) by (vm_compute; reflexivity).
  assert (Hs : historyStep board = 0) by (vm_compute; reflexivity).
  split; [exact He|]. split; [exact Hu|]. split; [exact Hs|exact (H0 Hs)].
Defined.

Lemma undo_redo_roundtrip_example :
  let e := run (strokeEvents dot) board in
  0 < historyStep e /\ showsCursor e = true
  /\ bitmap (mainCanvas (redo (undo e))) = bitmap (mainCanvas e).
Proof.
  intro e.
  assert (Hpos : 0 < historyStep e) by (vm_compute; reflexivity).
  assert (Hs : showsCursor e = true) by (vm_compute; reflexivity).
  destruct (undo_redo_roundtrip refRaster_laws pen (2, 1)%positive (strokeEvents dot) Hpos)
    as (_ & _ & _ & H).
  split; [exact Hpos|]. split; [exact Hs|exact (H Hs)].
Defined.

Lemma drawing_leaves_committed_example :
  let evs := [PointerDown centre; PointerMove (1, 1 # 2)%Q] in
  forallb pointerOnly evs = true
  /\ fst (exportImage (run evs board)) = fst (exportImage board).
Proof.
  intro evs.
  assert (Hp : forallb pointerOnly evs = true) by reflexivity.
  destruct (drawing_leaves_committed evs board Hp) as (_ & _ & _ & H).
  split; [exact Hp|exact H].
Defined.

Lemma interrupted_stroke_is_lost_example :
  let e := run [PointerDown centre] board in
  let e2 := step PointerUp (run [Layout (3, 2)%positive; WindowResize] e) in
  isDrawing e = true /\ cwidth (mainCanvas e) <> 3%nat
  /\ bitmap (mainCanvas e2) = stretchFill (bitmap (mainCanvas e)) 3 2.
Proof.
  intros e e2.
  assert (Hd : isDrawing e = true) by reflexivity.
  assert (Hne : cwidth (mainCanvas e) <> 3%nat) by (vm_compute; discriminate).
  destruct (interrupted_stroke_is_lost refRaster_laws pen (2, 1)%positive
              [PointerDown centre] (3, 2)%positive Hd (or_introl Hne)) as (_ & _ & H & _).
  split; [exact Hd|]. split; [exact Hne|exact H].
Defined.

Lemma surfaces_never_empty_example :
  nonEmpty (bitmap (mainCanvas (run [Layout (1, 1)%positive; WindowResize] board))).
Proof.
  exact (proj1 (surfaces_never_empty refRaster_laws pen (2, 1)%positive
                  [Layout (1, 1)%positive; WindowResize])).
Defined.

Lemma same_aspect_fills_surface_example :
  (rw (aspectFit 200 100 100 50) == 100 /\ rh (aspectFit 200 100 100 50) == 50)%Q.
Proof.
  assert (H1 : (0 < 200)%nat) by lia. assert (H2 : (0 < 100)%nat) by lia.
  assert (H3 : (0 < 50)%nat) by lia.
  assert (H4 : (200 * 50 = 100 * 100)%nat) by reflexivity.
  destruct (same_aspect_fills_surface H1 H2 H2 H3 H4) as (_ & _ & Hw & Hh).
  split; [exact Hw|exact Hh].
Defined.

Lemma load_is_undoable_example :
  showsCursor board = true
  /\ bitmap (mainCanvas (undo (loadImage (Some redBlue) board))) = bitmap (mainCanvas board).
Proof.
  assert (Hs : showsCursor board = true) by (vm_compute; reflexivity).
  destruct (load_is_undoable refRaster_laws pen (2, 1)%positive [] redBlue)
    as (_ & _ & H & _).
  split; [exact Hs|exact (H Hs)].
Defined.

Lemma mount_snapshot_default_size_example :
  historyStep board = 0 /\ (cwidth (mainCanvas board), cheight (mainCanvas board)) = (2, 1)%nat.
Proof.
  destruct (mount_snapshot_default_size refRaster_laws pen (2, 1)%positive)
    as (_ & Hs & Hd & _).
  split; [exact Hs|exact Hd].
Defined.

Lemma resize_settles_example :
  let e' := handleResizeAt 3 2 board in
  sideOk 3 = true /\ sideOk 2 = true /\ whole 3 = true /\ whole 2 = true
  /\ handleResizeAt 3 2 e' = e'.
Proof.
  intro e'.
  assert (H : sideOk 3 = true /\ sideOk 2 = true /\ whole 3 = true /\ whole 2 = true)
    by (repeat split).
  destruct H as (H1 & H2 & H3 & H4).
  destruct (resize_settles refRaster_laws pen (2, 1)%positive [] 3 2 H1 H2 H3 H4)
    as (_ & _ & _ & _ & H).
  split; [exact H1|]. split; [exact H2|]. split; [exact H3|]. split; [exact H4|exact H].
Defined.

Lemma fractional_resize_never_settles_example :
  let e0 := run [ImageLoaded fiveColours] (mount pen (5, 1)%positive) in
  let e := Nat.iter 1 (handleResizeAt (59 # 10) 1) e0 in
  let e' := handleResizeAt (59 # 10) 1 e in
  sideOk (59 # 10) = true /\ sideOk 1 = true /\ whole (59 # 10) && whole 1 = false
  /\ cwidth (mainCanvas e) = 5%nat /\ cwidth (mainCanvas e') = 5%nat
  /\ bitmap (mainCanvas e') = stretchInto (bitmap (mainCanvas e)) (rectOf (59 # 10) 1) 5 1
  /\ pixelAt (bitmap (mainCanvas e)) 4 0 = black
  /\ pixelAt (bitmap (mainCanvas e')) 4 0 = mkPixel 0 255 0 255.
Proof.
  intros e0 e e'.
  assert (H1 : sideOk (59 # 10) = true) by reflexivity.
  assert (H2 : sideOk 1 = true) by reflexivity.
  assert (H3 : whole (59 # 10) && whole 1 = false) by reflexivity.
  destruct (fractional_resize_never_settles refRaster_laws pen (5, 1)%positive
              [ImageLoaded fiveColours] (59 # 10) 1 1 H1 H2 H3) as (H & _).
  split; [exact H1|]. split; [exact H2|]. split; [exact H3|].
  split; [vm_compute; reflexivity|]. split; [vm_compute; reflexivity|].
  split; [exact H|]. split; vm_compute; reflexivity.
Defined.


(** With a fractional width the resize stretches the surface into a wider
    rectangle than a restore does, and the surface stops showing the
    entry under the cursor. *)
Lemma fractional_resize_hides_cursor :
  let e := run [ImageLoaded fiveColours] (mount pen (5, 1)%positive) in
  index (historyRef e) (historyStep e) = Some (bitmap (mainCanvas e))
  /\ showsCursor (handleResizeAt (59 # 10) 1 e) = false.
Proof.
  intro e. split; vm_compute; reflexivity.
Qed.

Lemma cleanBase64_strips_header_example :
  In "data:image/jpeg;base64,"%string headers
  /\ cleanBase64 "data:image/jpeg;base64,AAAA" = "AAAA"%string.
Proof.
  assert (H : In "data:image/jpeg;base64,"%string headers) by (right; left; reflexivity).
  split; [exact H|]. exact (cleanBase64_strips_header "AAAA" H).
Defined.

Lemma parseResponse_spec_example :
  let response := mkResponse (Some [mkCandidate (Some (mkContent (Some
                    [mkPart None (Some "Done. "%string);
                     mkPart (Some "AAAA"%string) None;
                     mkPart None (Some "Enjoy"%string)])))]) in
  candidates response <> Some []
  /\ parseResponse response = Ok ("Done. Enjoy", "data:image/png;base64,AAAA")%string
  /\ parseResponse (mkResponse (Some [])) = TypeError.
Proof.
  intro response.
  assert (Hne : candidates response <> Some []) by discriminate.
  split; [exact Hne|]. split.
  - exact (proj2 (parseResponse_spec response) Hne).
  - exact (proj1 (parseResponse_spec (mkResponse (Some []))) eq_refl).
Defined.
